(** * Geophone: a shallow embedding of Geophone.ino

    The sketch samples a geophone at 512 Hz into a double buffer, runs a
    512-point radix-2 fixed-point FFT on every completed frame, reports the
    bins whose amplitude reaches a threshold, and lets the threshold be
    changed over the serial line.

    Conventions of the embedding.
    - The sketch builds for the Arduino Mega and for the Arduino Due; what
      differs between the two builds depends on a [board].
    - C integers are [Z] with the conversions written out: [short] is 16 bits,
      [long] 32 bits, [int] 16 bits on the Mega and 32 bits on the Due, and
      [unsigned long] wraps modulo 2^32.
    - [double] is IEEE binary64 on the Due and binary32 on the Mega.  Values
      are Rocq's primitive floats; on the Mega every operation is rounded
      to binary32.
    - Arrays are lists read with [!!] and written with [<[ _ := _ ]>].
    - The serial line is a stream of bytes in each direction.
    - Library functions whose code is not part of the sketch ([atof], [cos],
      the number formatting of [Serial.print]) and the twiddle tables are
      parameters of the functions using them.
    - The timer interrupt and [loop] are steps of one machine that do not
      overlap. *)

From Stdlib Require Import ZArith Lia Floats Uint63 Ascii String.
From stdpp Require Import base list.

Set Warnings "-inexact-float".
Local Open Scope Z_scope.

(** ** Integer conversions *)

(** Conversion of an integer value to [short]: the low 16 bits, read as a
    two's complement number. *)
Definition to_short (z : Z) : Z := (z + 32768) mod 65536 - 32768.

(** Conversion to [long], 32 bits wide. *)
Definition to_long (z : Z) : Z := (z + 2147483648) mod 4294967296 - 2147483648.

(** Conversion to [unsigned int] and [unsigned long]. *)
Definition to_ulong (z : Z) : Z := z mod 4294967296.

Definition is_short (z : Z) : Prop := -32768 <= z <= 32767.

(** ** The boards *)

(** The sketch compiles for two boards; [#if defined( ... )] becomes a match
    on the board. *)
Inductive board := ARDUINO_AVR_MEGA2560 | ARDUINO_SAM_DUE.

(** Conversion to [int]: 16 bits with avr-gcc on the Mega, 32 bits on the
    Due.  C leaves the overflow of [int] arithmetic undefined; the model
    takes the two's complement result that both compilers produce. *)
Definition to_int (bd : board) (z : Z) : Z :=
  match bd with
  | ARDUINO_AVR_MEGA2560 => to_short z
  | ARDUINO_SAM_DUE => to_long z
  end.

(** The values of an [int]. *)
Definition is_int (bd : board) (z : Z) : Prop :=
  match bd with
  | ARDUINO_AVR_MEGA2560 => -32768 <= z <= 32767
  | ARDUINO_SAM_DUE => -2147483648 <= z <= 2147483647
  end.

(** ** Fixed-point arithmetic *)

(** [q15_mul16]: [long product = a * b;] then
    [(short)((product >> 15) & 0x0000ffff)].  The operands are promoted to
    [int], the product is formed in [int] and then stored in a [long]. *)
Definition q15_mul16 (bd : board) (a b : Z) : Z :=
  let product := to_long (to_int bd (a * b)) in
  to_short (Z.land (Z.shiftr product 15) 65535).


(** ** Arrays of samples *)

(** [a[i]] and [a[i] = v] on a [short] array.  An index outside the array is
    undefined behaviour in C; here a read yields 0 and a write changes
    nothing, and the theorems below only use indices inside the array. *)
Definition rd (a : list Z) (i : Z) : Z := default 0 (a !! Z.to_nat i).
Definition wr (a : list Z) (i v : Z) : list Z := <[Z.to_nat i := v]> a.

(** ** Bit reversal *)

(** One array of [swap]: [temp = a[first]; a[first] = a[second];
    a[second] = temp]. *)
Definition swap_array (first second : Z) (a : list Z) : list Z :=
  let temp := rd a first in
  let a := wr a first (rd a second) in
  wr a second temp.

(** [swap]: exchange two complex numbers, component by component. *)
Definition swap (first second : Z) (real imaginary : list Z)
  : list Z * list Z :=
  (swap_array first second real, swap_array first second imaginary).

(** [for( zeros = 0; nodd & 1; zeros++ ) nodd >>= 1;] on a 32-bit
    [unsigned int].  After 32 shifts [nodd] is 0, so [fuel] 33 always
    reaches the exit test (see [count_zeros_fuel]). *)
Fixpoint count_zeros (fuel : nat) (nodd zeros : Z) : Z :=
  match fuel with
  | O => zeros
  | S fuel' =>
      if Z.land nodd 1 =? 0 then zeros
      else count_zeros fuel' (Z.shiftr nodd 1) (zeros + 1)
  end.

(** The loop-carried variables of [bit_reverse_complex]. *)
Record br_state := BrState {
  br_forward : Z;
  br_rev : Z;
  br_real : list Z;
  br_imag : list Z
}.

(** The body of the permutation loop for counter value [i]. *)
Definition bit_reverse_body (N i : Z) (s : br_state) : br_state :=
  let halfn := Z.shiftr N 1 in
  let quartn := Z.shiftr N 2 in
  let nmin1 := N - 1 in
  let nodd := to_ulong (Z.lnot i) in
  let zeros := count_zeros 33 nodd 0 in
  let forward := to_ulong (Z.lxor (br_forward s) (Z.shiftl 2 zeros)) in
  let rev := to_ulong (Z.lxor (br_rev s) (Z.shiftr quartn zeros)) in
  let '(real, imag) :=
    if forward <? rev then
      let '(real, imag) := swap forward rev (br_real s) (br_imag s) in
      let nodd := to_ulong (Z.lxor nmin1 forward) in
      let noddrev := to_ulong (Z.lxor nmin1 rev) in
      swap nodd noddrev real imag
    else (br_real s, br_imag s) in
  let nodd := to_ulong (Z.lxor forward 1) in
  let noddrev := to_ulong (Z.lxor rev halfn) in
  let '(real, imag) := swap nodd noddrev real imag in
  BrState forward rev real imag.

(** [for( int i = quartn; i; i-- )]: [n] iterations with [i] running from
    [n] down to 1. *)
Fixpoint bit_reverse_loop (N : Z) (n : nat) (s : br_state) : br_state :=
  match n with
  | O => s
  | S n' => bit_reverse_loop N n' (bit_reverse_body N (Z.of_nat n) s)
  end.

(** [bit_reverse_complex( real, imag, length )]. *)
Definition bit_reverse_complex (real imag : list Z) (length : Z)
  : list Z * list Z :=
  let N := length in
  let halfn := Z.shiftr N 1 in
  let quartn := Z.shiftr N 2 in
  let s := bit_reverse_loop N (Z.to_nat quartn)
             (BrState (to_ulong halfn) 1 real imag) in
  (br_real s, br_imag s).

(** The index whose [w] low bits are those of [j] in reverse order: bit 0
    of [j] becomes bit [w-1], bit 1 becomes bit [w-2], and so on. *)
Fixpoint bit_reversed (w : nat) (j : Z) : Z :=
  match w with
  | O => 0
  | S w' => (j mod 2) * 2 ^ Z.of_nat w' + bit_reversed w' (j / 2)
  end.

(** *** The swaps of the permutation, apart from the data

    Which elements [bit_reverse_complex] exchanges depends on the length
    only.  [bit_reverse_swaps] lists the index pairs in the order the loop
    visits them; it is used to reason about the loop, not to run it. *)

Definition bit_reverse_body_swaps (N i forward0 rev0 : Z)
  : Z * Z * list (Z * Z) :=
  let halfn := Z.shiftr N 1 in
  let quartn := Z.shiftr N 2 in
  let nmin1 := N - 1 in
  let zeros := count_zeros 33 (to_ulong (Z.lnot i)) 0 in
  let forward := to_ulong (Z.lxor forward0 (Z.shiftl 2 zeros)) in
  let rev := to_ulong (Z.lxor rev0 (Z.shiftr quartn zeros)) in
  (forward, rev,
   (if forward <? rev
    then [(forward, rev);
          (to_ulong (Z.lxor nmin1 forward), to_ulong (Z.lxor nmin1 rev))]
    else [])
   ++ [(to_ulong (Z.lxor forward 1), to_ulong (Z.lxor rev halfn))]).

Fixpoint bit_reverse_swaps (N : Z) (n : nat) (forward rev : Z)
  : list (Z * Z) :=
  match n with
  | O => []
  | S n' =>
      let '(forward', rev', sw) :=
        bit_reverse_body_swaps N (Z.of_nat n) forward rev in
      sw ++ bit_reverse_swaps N n' forward' rev'
  end.

Fixpoint apply_swaps (sw : list (Z * Z)) (a : list Z) : list Z :=
  match sw with
  | [] => a
  | (i, j) :: sw' => apply_swaps sw' (swap_array i j a)
  end.

(** The indices [0, 1, ..., n-1]. *)
Definition iota (n : nat) : list Z := Z.of_nat <$> seq 0 n.

Definition swap_in_range (len : Z) (p : Z * Z) : bool :=
  (0 <=? fst p) && (fst p <? len) && (0 <=? snd p) && (snd p <? len).

(** The swaps [bit_reverse_complex] makes on arrays of length [N]. *)
Definition swaps_of_length (N : Z) : list (Z * Z) :=
  bit_reverse_swaps N (Z.to_nat (Z.shiftr N 2)) (to_ulong (Z.shiftr N 1)) 1.

(** The checks that the swaps for length [2^k] stay inside the arrays, turn
    the index table into the table of reversed indices, and that reversing
    [k] bits twice gives the index back. *)
Definition bit_reverse_checks (k : nat) : bool :=
  let n := (2 ^ k)%nat in
  forallb (swap_in_range (Z.of_nat n)) (swaps_of_length (Z.of_nat n))
  && forallb (fun p => fst p =? snd p)
       (zip (apply_swaps (swaps_of_length (Z.of_nat n)) (iota n))
            (bit_reversed k <$> iota n))
  && forallb (fun j => (0 <=? bit_reversed k j) && (bit_reversed k j <? Z.of_nat n)
                       && (bit_reversed k (bit_reversed k j) =? j)) (iota n).

(** ** Complex arithmetic in Q15 *)

(** [complex_add]: [*res_r = r1 + r2; *res_i = i1 + i2;], the sums formed in
    [int] and stored as [short].  The results are returned as a pair. *)
Definition complex_add (bd : board) (r1 i1 r2 i2 : Z) : Z * Z :=
  (to_short (to_int bd (r1 + r2)), to_short (to_int bd (i1 + i2))).

(** [complex_mul]: the four partial products through [q15_mul16], their
    difference and sum formed in [int] and stored as [short]. *)
Definition complex_mul (bd : board) (r1 i1 r2 i2 : Z) : Z * Z :=
  (to_short (to_int bd (q15_mul16 bd r1 r2 - q15_mul16 bd i1 i2)),
   to_short (to_int bd (q15_mul16 bd r1 i2 + q15_mul16 bd i1 r2))).

(** ** The 512-point FFT *)

(** [for( i = lower; i < upper; i++ ) body], for a body that leaves [i] and
    [upper] alone. *)
Fixpoint for_count {S : Type} (n : nat) (i : Z) (body : Z -> S -> S) (s : S) : S :=
  match n with
  | O => s
  | S n' => for_count n' (i + 1) body (body i s)
  end.

Definition for_loop {S : Type} (lower upper : Z) (body : Z -> S -> S) (s : S) : S :=
  for_count (Z.to_nat (upper - lower)) lower body s.

Section FFT.

Variable bd : board.

(** The tables of [twiddle_factors_256_br.h], which is not part of the
    sources at hand: 256 bit-reverse ordered twiddle factors in Q15. *)
Variable twiddle_real twiddle_imag : list Z.

(** [pgm_read_word_near( table + group )] stored into a [short]. *)
Definition pgm_read_word_near (table : list Z) (i : Z) : Z :=
  rd table i mod 65536.

(** One butterfly: the innermost loop body.  The first [complex_add] stores
    into element [butterfly + wingspan], the second one reads element
    [butterfly] again from the arrays.  [-temp_r] is negated in [int] and
    passed as a [short]. *)
Definition fft_butterfly (WR WI wingspan butterfly : Z)
    (d : list Z * list Z) : list Z * list Z :=
  let '(data_real, data_imag) := d in
  let '(temp_r, temp_i) :=
    complex_mul bd WR WI (rd data_real (butterfly + wingspan))
                         (rd data_imag (butterfly + wingspan)) in
  let '(res_r, res_i) :=
    complex_add bd (rd data_real butterfly) (rd data_imag butterfly)
                (to_short (to_int bd (- temp_r)))
                (to_short (to_int bd (- temp_i))) in
  let data_real := wr data_real (butterfly + wingspan) res_r in
  let data_imag := wr data_imag (butterfly + wingspan) res_i in
  let '(res_r, res_i) :=
    complex_add bd (rd data_real butterfly) (rd data_imag butterfly)
                temp_r temp_i in
  (wr data_real butterfly res_r, wr data_imag butterfly res_i).

(** The body of the group loop. *)
Definition fft_group (pairs_per_group wingspan group : Z)
    (d : list Z * list Z) : list Z * list Z :=
  let WR := to_short (pgm_read_word_near twiddle_real group) in
  let WI := to_short (pgm_read_word_near twiddle_imag group) in
  let lower := to_int bd (to_int bd (2 * group) * pairs_per_group) in
  let upper := to_int bd (lower + pairs_per_group) in
  for_loop lower upper (fft_butterfly WR WI wingspan) d.

(** [for( int stage = 1; stage < length; ) { ... stage = stage << 1; }]:
    the loop has no bound known beforehand, so it runs on [fuel] and yields
    [None] when the fuel is used up before the loop test fails. *)
Fixpoint fft_stages (fuel : nat) (length stage pairs_per_group wingspan : Z)
    (d : list Z * list Z) : option (list Z * list Z) :=
  match fuel with
  | O => None
  | S fuel' =>
      if stage <? length then
        let d := for_loop 0 stage (fft_group pairs_per_group wingspan) d in
        fft_stages fuel' length (to_int bd (Z.shiftl stage 1))
          (Z.shiftr pairs_per_group 1) (Z.shiftr wingspan 1) d
      else Some d
  end.

(** [fft_radix2_512( data_real, data_imag )]. *)
Definition fft_radix2_512 (fuel : nat) (data_real data_imag : list Z)
  : option (list Z * list Z) :=
  let length := 512 in
  let pairs_per_group := length / 2 in
  let wingspan := length / 2 in
  fft_stages fuel length 1 pairs_per_group wingspan (data_real, data_imag).

(** *** The transform as the design describes it

    Nine stages; in stage [s] (from 0) there are [2^s] groups of [256 / 2^s]
    butterflies with wingspan [256 / 2^s].  A butterfly at [b] in group [g]
    takes [T = W[g] * data[b + wingspan]] and replaces
    [data[b + wingspan]] by [data[b] - T] and [data[b]] by [data[b] + T],
    both from the old [data[b]]. *)

(** The integers [lo, lo+1, ..., lo+n-1]. *)
Definition zrange (lo : Z) (n : nat) : list Z :=
  (fun k => lo + Z.of_nat k) <$> seq 0 n.

(** The fixed-point complex product [w * x]: real part
    [re w * re x - im w * im x], imaginary part [re w * im x + im w * re x],
    each product by [q15_mul16], the results wrapped to 16 bits. *)
Definition q15_cmul (w x : Z * Z) : Z * Z :=
  (to_short (q15_mul16 bd (fst w) (fst x) - q15_mul16 bd (snd w) (snd x)),
   to_short (q15_mul16 bd (fst w) (snd x) + q15_mul16 bd (snd w) (fst x))).

Definition design_butterfly (W : Z * Z) (wingspan b : Z)
    (d : list Z * list Z) : list Z * list Z :=
  let old_b := (rd (fst d) b, rd (snd d) b) in
  let T := q15_cmul W (rd (fst d) (b + wingspan), rd (snd d) (b + wingspan)) in
  let diff := (to_short (fst old_b - fst T), to_short (snd old_b - snd T)) in
  let sum := (to_short (fst old_b + fst T), to_short (snd old_b + snd T)) in
  (wr (wr (fst d) (b + wingspan) (fst diff)) b (fst sum),
   wr (wr (snd d) (b + wingspan) (snd diff)) b (snd sum)).

Definition design_twiddle (g : Z) : Z * Z :=
  (to_short (rd twiddle_real g), to_short (rd twiddle_imag g)).

Definition design_stage (d : list Z * list Z) (s : nat) : list Z * list Z :=
  let groupCount := 2 ^ Z.of_nat s in
  let pairsPerGroup := 256 / 2 ^ Z.of_nat s in
  let wingspan := 256 / 2 ^ Z.of_nat s in
  fold_left
    (fun d g =>
       fold_left (fun d b => design_butterfly (design_twiddle g) wingspan b d)
         (zrange (2 * g * pairsPerGroup) (Z.to_nat pairsPerGroup)) d)
    (zrange 0 (Z.to_nat groupCount)) d.


End FFT.

(** ** Floating point and the serial line *)

Abbreviation double := PrimFloat.float.

(** [(double)z] for an integer [z] (exact below 2^53). *)
Definition double_of_Z (z : Z) : double :=
  if z <? 0 then PrimFloat.opp (PrimFloat.of_uint63 (Uint63.of_Z (- z)))
  else PrimFloat.of_uint63 (Uint63.of_Z z).

(** The integer part of a [double], rounding toward zero, as a C cast to an
    integer type takes it.  Infinities and NaN, for which the cast is
    undefined, give 0. *)
Definition Z_of_double (x : double) : Z :=
  match Prim2SF x with
  | S754_finite s m e =>
      let v := if 0 <=? e then Z.shiftl (Zpos m) e
               else Z.shiftr (Zpos m) (- e) in
      if s then - v else v
  | _ => 0
  end.

(** [(float)x]: the nearest binary32 value, kept as a [double]. *)
Definition to_float (x : double) : double :=
  match Prim2SF x with
  | S754_finite s m e =>
      SF2Prim (binary_normalize 24 128 (if s then Zneg m else Zpos m) e s)
  | _ => x
  end.

(** *** The [double] of the board

    On the Due a [double] is binary64.  avr-gcc makes [double] the same 32
    bit type as [float], so on the Mega every constant and every result of
    an operation is a binary32 value.  Adding, subtracting, multiplying,
    dividing or taking the square root of binary32 values in binary64 and
    rounding the result to binary32 gives the correctly rounded binary32
    result, which is how the operations of the Mega are written here. *)
Definition round_double (bd : board) (x : double) : double :=
  match bd with
  | ARDUINO_AVR_MEGA2560 => to_float x
  | ARDUINO_SAM_DUE => x
  end.

Definition double_add (bd : board) (x y : double) : double :=
  round_double bd (x + y)%float.

Definition double_sub (bd : board) (x y : double) : double :=
  round_double bd (x - y)%float.

Definition double_mul (bd : board) (x y : double) : double :=
  round_double bd (x * y)%float.

Definition double_div (bd : board) (x y : double) : double :=
  round_double bd (x / y)%float.

(** [sqrt] of the C library, correctly rounded. *)
Definition double_sqrt (bd : board) (x : double) : double :=
  round_double bd (PrimFloat.sqrt x).

(** [(double)z] for an integer [z] on the board. *)
Definition double_of_int (bd : board) (z : Z) : double :=
  round_double bd (double_of_Z z).

(** Bytes on the serial line. *)
Abbreviation bytes := (list ascii).

Definition text (s : string) : bytes := list_ascii_of_string s.

(** The line end of [Serial.println]: carriage return, line feed. *)
Definition crlf : bytes := [ascii_of_nat 13; ascii_of_nat 10].

(** ** The report *)

Definition LOWEST_FREQUENCY_REPORTED : Z := 10.
Definition HIGHEST_FREQUENCY_REPORTED : Z := 150.
Definition SAMPLE_RATE : Z := 512.
Definition NUMBER_OF_GEODATA_SAMPLES : Z := 512.

Section Report.

Variable bd : board.

(** [Serial.print( (short)x )] and [Serial.print( x, digits )]: the decimal
    formatting of the Arduino core. *)
Variable print_short : Z -> bytes.
Variable print_double : double -> Z -> bytes.

(** The loop-carried variables of [report]: [first_entry] and the bytes sent
    so far. *)
Definition report_bin (freq_real freq_imag : list Z) (threshold : double)
    (frequency_bin : Z) (st : bool * bytes) : bool * bytes :=
  let '(first_entry, out) := st in
  let real :=
    double_div bd (double_of_int bd (rd freq_real frequency_bin)) 32768 in
  let imag :=
    double_div bd (double_of_int bd (rd freq_imag frequency_bin)) 32768 in
  let amplitude :=
    double_sqrt bd (double_add bd (double_mul bd real real)
                                  (double_mul bd imag imag)) in
  if PrimFloat.leb threshold amplitude then
    let '(first_entry, out) :=
      if first_entry then (false, out) else (first_entry, out ++ text ",") in
    let frequency :=
      double_add bd
        (double_mul bd
           (double_div bd (double_of_int bd SAMPLE_RATE)
                          (double_of_int bd NUMBER_OF_GEODATA_SAMPLES))
           (double_of_int bd frequency_bin))
        0.5 in
    let out := out ++ print_short (to_short (Z_of_double frequency)) in
    let out := out ++ text "," in
    let out := out ++ print_double amplitude 4 in
    (first_entry, out)
  else (first_entry, out).

(** [report( freq_real, freq_imag, length, threshold )]: the bytes sent and
    the new value of [report_was_created].  The two bin bounds are constant
    expressions of type [int]: the product is formed in [int], then
    divided. *)
Definition report (freq_real freq_imag : list Z) (length : Z)
    (threshold : double) (report_was_created : bool) : bytes * bool :=
  let first_entry := true in
  let lower_frequency_bin :=
    Z.quot (to_int bd (LOWEST_FREQUENCY_REPORTED * NUMBER_OF_GEODATA_SAMPLES))
           SAMPLE_RATE in
  let upper_frequency_bin :=
    Z.quot (to_int bd (HIGHEST_FREQUENCY_REPORTED * NUMBER_OF_GEODATA_SAMPLES))
           SAMPLE_RATE in
  let '(first_entry, out) :=
    for_loop lower_frequency_bin (upper_frequency_bin + 1)
      (report_bin freq_real freq_imag threshold) (first_entry, []) in
  if first_entry then (out, report_was_created)
  else (out ++ text "" ++ crlf, true).

End Report.

(** *** The report line as the design describes it *)

(** The band of bins reported: from [10 * 512 / 512] to [150 * 512 / 512]
    as the board's [int] computes them. *)
Definition LowBin (bd : board) : Z :=
  match bd with
  | ARDUINO_AVR_MEGA2560 => 10
  | ARDUINO_SAM_DUE => 10
  end.

Definition HighBin (bd : board) : Z :=
  match bd with
  | ARDUINO_AVR_MEGA2560 => 22
  | ARDUINO_SAM_DUE => 150
  end.

Section Report_design.

Variable bd : board.
Variable print_short : Z -> bytes.
Variable print_double : double -> Z -> bytes.

(** Magnitude of a bin: real and imaginary part divided by 32768, then the
    square root of the sum of squares, in the [double] of the board. *)
Definition magnitude (freq_real freq_imag : list Z) (bin : Z) : double :=
  let re := double_div bd (double_of_int bd (rd freq_real bin)) 32768 in
  let im := double_div bd (double_of_int bd (rd freq_imag bin)) 32768 in
  double_sqrt bd (double_add bd (double_mul bd re re) (double_mul bd im im)).

(** The frequency of a bin, rounded: [bin * 512 / 512 + 0.5] cut to an
    integer. *)
Definition rounded_frequency (bin : Z) : Z :=
  to_short (Z_of_double
    (double_add bd
       (double_mul bd (double_div bd (double_of_int bd 512) (double_of_int bd 512))
                      (double_of_int bd bin))
       0.5)).

(** Items separated by commas. *)
Fixpoint comma_separated (items : list bytes) : bytes :=
  match items with
  | [] => []
  | [x] => x
  | x :: rest => x ++ text "," ++ comma_separated rest
  end.

(** What the bin loop has sent after a run of bins: nothing when none
    qualified, else the entries, with a comma in front unless they are the
    first of the line. *)
Definition report_sent (first_entry : bool) (entries : list bytes) : bytes :=
  match entries with
  | [] => []
  | _ => (if first_entry then [] else text ",") ++ comma_separated entries
  end.

Definition report_entry (freq_real freq_imag : list Z) (bin : Z) : bytes :=
  print_short (rounded_frequency bin) ++ text ","
  ++ print_double (magnitude freq_real freq_imag bin) 4.

(** The bins of the band that reach the threshold, ascending. *)
Definition qualifying_bins (freq_real freq_imag : list Z) (threshold : double)
  : list Z :=
  List.filter (fun bin => PrimFloat.leb threshold (magnitude freq_real freq_imag bin))
    (zrange (LowBin bd) (Z.to_nat (HighBin bd - LowBin bd + 1))).

End Report_design.

(** [M_PI] of [math.h], a constant of type [double]. *)
Definition M_PI (bd : board) : double :=
  round_double bd 3.14159265358979323846%float.

Definition adc_resolution (bd : board) : Z :=
  match bd with
  | ARDUINO_AVR_MEGA2560 => 1024
  | ARDUINO_SAM_DUE => 4096
  end.

(** ** Sampling *)

(** The globals of the sampling interrupt.  [geodata_samples_real] points
    into [geodata_samples]; it is kept as the offset of its target, [None]
    while the pointer is still null. *)
Record sampler := Sampler {
  geodata_samples : list Z;
  geodata_samples_real : option Z;
  isr_hamming_window_index : Z;
  isr_current_geodata_index : Z;
  geodata_buffer_full : bool
}.

(** [report_was_created], the statics [timestamp] and [led_on] of
    [report_blink], and the state of the report LED pin. *)
Record blinker := Blinker {
  report_was_created : bool;
  blink_timestamp : Z;
  blink_led_on : bool;
  report_led : bool
}.

Definition REPORT_BLINK_ENABLED : bool := true.

(** [start_sampling], without the timer registers: the buffer indices and
    the semaphore are reset. *)
Definition start_sampling (s : sampler) : sampler :=
  Sampler (geodata_samples s) (geodata_samples_real s) 0 0 false.

(** [report_blink( enabled )] at time [now] (the value of [millis()]). *)
Definition report_blink (enabled : bool) (now : Z) (k : blinker) : blinker :=
  if enabled then
    let k :=
      if report_was_created k
      then Blinker false (to_ulong (now + 125)) true true
      else k in
    if blink_led_on k then
      if blink_timestamp k <? now
      then Blinker (report_was_created k) (blink_timestamp k) false false
      else k
    else k
  else k.

Section Sampling.

(** [cos] of the C library; its result is taken as a [double] of the
    board. *)
Variable cos : double -> double.

Definition double_cos (bd : board) (x : double) : double :=
  round_double bd (cos x).

(** [sampling_interrupt] for the reading [raw] of [analogRead] at time
    [now] (the value of [millis()]).  The arithmetic is that of the board:
    the reading is centred in [int], the window and the scaling are
    computed in [double], the window coefficient is kept in a [float]. *)
Definition sampling_interrupt (bd : board) (raw now : Z)
    (s : sampler) (k : blinker) : sampler * blinker :=
  let adc_resolution := adc_resolution bd in
  let geodata_sample :=
    to_short (to_int bd (raw - Z.shiftr adc_resolution 1)) in
  let alpha := round_double bd 0.54 in
  let beta := double_sub bd 1.0 alpha in
  let N := double_of_int bd (NUMBER_OF_GEODATA_SAMPLES - 1) in
  let hamming_window :=
    to_float
      (double_sub bd alpha
         (double_mul bd beta
            (double_cos bd
               (double_div bd
                  (double_mul bd (double_mul bd 2.0 (M_PI bd))
                     (double_of_int bd (isr_hamming_window_index s)))
                  N)))) in
  let hamming_index := isr_hamming_window_index s + 1 in
  let scale := double_div bd 8192.0 (double_of_int bd adc_resolution) in
  let geodata_sample :=
    to_short (Z_of_double
      (double_mul bd
         (double_mul bd (double_of_int bd geodata_sample) hamming_window)
         scale)) in
  let samples :=
    wr (geodata_samples s) (isr_current_geodata_index s) geodata_sample in
  let current_index := isr_current_geodata_index s + 1 in
  let s :=
    if current_index =? NUMBER_OF_GEODATA_SAMPLES then
      Sampler samples (Some 0) 0 current_index true
    else if current_index =? NUMBER_OF_GEODATA_SAMPLES * 2 then
      Sampler samples (Some NUMBER_OF_GEODATA_SAMPLES) 0 0 true
    else
      Sampler samples (geodata_samples_real s) hamming_index current_index
        (geodata_buffer_full s) in
  (s, report_blink REPORT_BLINK_ENABLED now k).

(** *** The stored sample as the design describes it

    The Hamming coefficient [0.54 - 0.46 cos (2 pi i / (N - 1))] at window
    position [i], a [float].  The factor 0.46 is the difference
    [1.0 - 0.54] in the [double] of the board. *)
Definition hamming_coefficient (bd : board) (i : Z) : double :=
  let two_pi_i :=
    double_mul bd (double_mul bd 2.0 (M_PI bd)) (double_of_int bd i) in
  let angle := double_div bd two_pi_i (double_of_int bd (512 - 1)) in
  to_float
    (double_sub bd (round_double bd 0.54)
       (double_mul bd (double_sub bd 1.0 (round_double bd 0.54))
                      (double_cos bd angle))).

(** The raw reading, centred on half the full scale, times the coefficient,
    times [8192 / FullScale], cut to a 16-bit sample. *)
Definition design_sample (bd : board) (FullScale i raw : Z) : Z :=
  to_short (Z_of_double
    (double_mul bd
       (double_mul bd (double_of_int bd (raw - FullScale / 2))
                      (hamming_coefficient bd i))
       (double_div bd 8192.0 (double_of_int bd FullScale)))).

End Sampling.

(** ** The persistent store *)

(** The object representation of a [double], which the sketch copies to and
    from EEPROM byte by byte: IEEE little endian, binary32 in 4 bytes with
    avr-gcc on the Mega, binary64 in 8 bytes on the Due.  [mantissa_bits]
    and [exponent_bits] are the widths of the two fields. *)
Definition sizeof_double (b : board) : Z :=
  match b with ARDUINO_AVR_MEGA2560 => 4 | ARDUINO_SAM_DUE => 8 end.

Definition mantissa_bits (b : board) : Z :=
  match b with ARDUINO_AVR_MEGA2560 => 23 | ARDUINO_SAM_DUE => 52 end.

Definition exponent_bits (b : board) : Z :=
  match b with ARDUINO_AVR_MEGA2560 => 8 | ARDUINO_SAM_DUE => 11 end.

(** The bit pattern of [x] in the board's format ([x] is rounded to the
    format first; on the Mega every [double] already is a binary32 value). *)
Definition double_bits (b : board) (x : double) : Z :=
  let mw := mantissa_bits b in
  let ew := exponent_bits b in
  let bias := 2 ^ (ew - 1) - 1 in
  let sign (s : bool) := if s then 2 ^ (mw + ew) else 0 in
  match Prim2SF x with
  | S754_zero s => sign s
  | S754_infinity s => sign s + (2 ^ ew - 1) * 2 ^ mw
  | S754_nan => (2 ^ ew - 1) * 2 ^ mw + 2 ^ (mw - 1)
  | S754_finite s m e =>
      match binary_normalize (mw + 1) (2 ^ (ew - 1))
              (if s then Zneg m else Zpos m) e s with
      | S754_finite s' m' e' =>
          sign s' + (if 2 ^ mw <=? Zpos m'
                     then (e' + bias + mw) * 2 ^ mw + (Zpos m' - 2 ^ mw)
                     else Zpos m')
      | S754_infinity s' => sign s' + (2 ^ ew - 1) * 2 ^ mw
      | S754_zero s' => sign s'
      | S754_nan => (2 ^ ew - 1) * 2 ^ mw + 2 ^ (mw - 1)
      end
  end.

(** The value of a bit pattern of the board's format. *)
Definition bits_double (b : board) (bits : Z) : double :=
  let mw := mantissa_bits b in
  let ew := exponent_bits b in
  let bias := 2 ^ (ew - 1) - 1 in
  let m := bits mod 2 ^ mw in
  let e := (bits / 2 ^ mw) mod 2 ^ ew in
  let magnitude :=
    if e =? 2 ^ ew - 1 then (if m =? 0 then infinity else nan)
    else if e =? 0 then Z.ldexp (double_of_Z m) (1 - bias - mw)
    else Z.ldexp (double_of_Z (2 ^ mw + m)) (e - bias - mw) in
  if Z.testbit bits (mw + ew) then PrimFloat.opp magnitude else magnitude.

(** Bytes of a bit pattern, least significant first, and back. *)
Definition byte_of (bits i : Z) : Z := (bits / 256 ^ i) mod 256.

Fixpoint bits_of_bytes (l : list Z) : Z :=
  match l with
  | [] => 0
  | x :: l' => x mod 256 + 256 * bits_of_bytes l'
  end.

(** [read_amplitude_threshold_from_eeprom]: the bytes of [threshold] are
    filled in from EEPROM (zeros on a board without one), and 0.0 stands for
    a store that holds no value. *)
Definition DEFAULT_AMPLITUDE_THRESHOLD : double := 0.5%float.
Definition AMPLITUDE_THRESHOLD_EEPROM_ADDRESS : Z := 0.

Definition read_amplitude_threshold_from_eeprom (b : board) (eeprom : list Z)
  : double :=
  let threshold_bytes :=
    for_loop 0 (sizeof_double b)
      (fun i bytes =>
         let value :=
           match b with
           | ARDUINO_AVR_MEGA2560 =>
               rd eeprom (AMPLITUDE_THRESHOLD_EEPROM_ADDRESS + i)
           | ARDUINO_SAM_DUE => 0
           end in
         wr bytes i value)
      (replicate (Z.to_nat (sizeof_double b)) 0) in
  let threshold := bits_double b (bits_of_bytes threshold_bytes) in
  if PrimFloat.eqb threshold 0 then DEFAULT_AMPLITUDE_THRESHOLD else threshold.

(** [save_amplitude_threshold_to_eeprom]. *)
Definition save_amplitude_threshold_to_eeprom (b : board) (threshold : double)
    (eeprom : list Z) : list Z :=
  match b with
  | ARDUINO_AVR_MEGA2560 =>
      for_loop 0 (sizeof_double b)
        (fun i eeprom =>
           let value := byte_of (double_bits b threshold) i in
           wr eeprom (AMPLITUDE_THRESHOLD_EEPROM_ADDRESS + i) value)
        eeprom
  | ARDUINO_SAM_DUE => eeprom
  end.

(** ** The serial port *)

(** The receive buffer (bytes that arrived and were not read yet) and
    everything sent so far. *)
Record serial := Serial {
  serial_rx : bytes;
  serial_tx : bytes
}.

Definition serial_print (s : bytes) (io : serial) : serial :=
  Serial (serial_rx io) (serial_tx io ++ s).

Definition serial_println (s : bytes) (io : serial) : serial :=
  Serial (serial_rx io) (serial_tx io ++ s ++ crlf).

(** [while( Serial.available( ) > 0 ) Serial.read( );] *)
Fixpoint drain (rx : bytes) : bytes :=
  match rx with
  | [] => []
  | _ :: rx' => drain rx'
  end.

Definition flush_serial_input (io : serial) : serial :=
  Serial (drain (serial_rx io)) (serial_tx io).

(** ** The threshold protocol *)

(** The statics of [get_new_threshold]. *)
Record protocol := Protocol {
  threshold_string : bytes;
  threshold_string_pos : Z;
  timestamp : Z
}.

Definition NUL : ascii := ascii_of_nat 0.
Definition CR : ascii := ascii_of_nat 13.
Definition LF : ascii := ascii_of_nat 10.

(** The C string held in a [char] array: the bytes before the first NUL. *)
Fixpoint c_string (buf : bytes) : bytes :=
  match buf with
  | [] => []
  | c :: buf' => if Ascii.eqb c NUL then [] else c :: c_string buf'
  end.

Definition is_digit (c : ascii) : bool :=
  (48 <=? Z.of_nat (nat_of_ascii c)) && (Z.of_nat (nat_of_ascii c) <=? 57).

Definition is_dot (c : ascii) : bool := Z.of_nat (nat_of_ascii c) =? 46.

Definition sizeof_threshold_string : Z := 20.

Section Protocol.

(** [atof] of the C library, and the decimal formatting of a [double] by
    [Serial.println] (two decimals unless told otherwise). *)
Variable atof : bytes -> double.
Variable print_double : double -> Z -> bytes.

(** [get_new_threshold] called at time [now] (the value of [millis()]):
    the returned value, the statics and the serial port afterwards. *)
Definition get_new_threshold (now : Z) (p : protocol) (io : serial)
  : double * protocol * serial :=
  let timeout := 250 in
  if (0 <? threshold_string_pos p) && (to_ulong (timestamp p + timeout) <? now)
  then
    let io := serial_println (text "E:TIMEOUT") io in
    let io := flush_serial_input io in
    ((-1)%float, Protocol (threshold_string p) 0 (timestamp p), io)
  else
    match serial_rx io with
    | [] => ((-1)%float, p, io)
    | incoming_byte :: rx =>
        let timestamp :=
          if threshold_string_pos p =? 0 then now else timestamp p in
        if threshold_string_pos p <? sizeof_threshold_string - 1 then
          let io := Serial rx (serial_tx io) in
          if Ascii.eqb incoming_byte CR || Ascii.eqb incoming_byte LF then
            let buf :=
              <[Z.to_nat (threshold_string_pos p) := NUL]> (threshold_string p) in
            let threshold := atof (c_string buf) in
            if PrimFloat.ltb threshold 0 || PrimFloat.leb 1 threshold then
              let threshold := (-1)%float in
              let io := serial_println (text "E:OVERFLOW") io in
              let io := flush_serial_input io in
              (threshold, Protocol buf 0 timestamp, io)
            else
              let io := serial_print (text "OK:") io in
              let io := serial_println (print_double threshold 2) io in
              let io := flush_serial_input io in
              (threshold, Protocol buf 0 timestamp, io)
          else if is_digit incoming_byte || is_dot incoming_byte then
            let buf :=
              <[Z.to_nat (threshold_string_pos p) := incoming_byte]>
                (threshold_string p) in
            ((-1)%float, Protocol buf (threshold_string_pos p + 1) timestamp, io)
          else
            let io := serial_println (text "E:NON-NUMERIC") io in
            let io := flush_serial_input io in
            ((-1)%float, Protocol (threshold_string p) 0 timestamp, io)
        else
          let io := serial_println (text "E:FLUSH") io in
          let io := flush_serial_input io in
          ((-1)%float, Protocol (threshold_string p) 0 timestamp, io)
    end.

(** The end of [loop]: a threshold above 0.0 is saved and becomes the live
    one.  The result holds the live threshold, the EEPROM, the statics of
    the protocol and the serial port. *)
Definition loop_threshold (b : board) (now : Z)
    (amplitude_threshold : double) (eeprom : list Z)
    (p : protocol) (io : serial)
  : double * list Z * protocol * serial :=
  let '(threshold, p, io) := get_new_threshold now p io in
  if PrimFloat.ltb 0 threshold then
    let eeprom := save_amplitude_threshold_to_eeprom b threshold eeprom in
    (threshold, eeprom, p, io)
  else (amplitude_threshold, eeprom, p, io).

End Protocol.

(** ** The whole sketch *)

(** All the state of the program: the globals, the statics and the devices.
    The interrupt and [loop] are taken as steps that do not overlap. *)
Record machine := Machine {
  sampling : sampler;
  geodata_samples_imag : list Z;
  amplitude_threshold : double;
  blinking : blinker;
  threshold_input : protocol;
  port : serial;
  eeprom : list Z
}.

(** The [len] elements of [a] from [off] on, and [a] with the elements from
    [off] on replaced by those of [part]: a pointer into an array, read and
    written through. *)
Definition sub_array (off len : Z) (a : list Z) : list Z :=
  take (Z.to_nat len) (drop (Z.to_nat off) a).

Definition put_array (off : Z) (part a : list Z) : list Z :=
  take (Z.to_nat off) a ++ part ++ drop (Z.to_nat off + length part) a.

(** The machine when the program starts: globals and statics are zero, the
    EEPROM holds what it holds. *)
Definition power_on (eeprom : list Z) : machine :=
  Machine (Sampler (replicate 1024 0) None 0 0 false)
          (replicate 512 0)
          0%float
          (Blinker false 0 false false)
          (Protocol (replicate 20 NUL) 0 0)
          (Serial [] [])
          eeprom.

(** [setup]. *)
Definition setup (b : board) (m : machine) : machine :=
  let amplitude_threshold := read_amplitude_threshold_from_eeprom b (eeprom m) in
  let sampling := start_sampling (sampling m) in
  let blinking :=
    Blinker false (blink_timestamp (blinking m)) (blink_led_on (blinking m))
      false in
  Machine sampling (geodata_samples_imag m) amplitude_threshold blinking
    (threshold_input m) (port m) (eeprom m).

Section Sketch.

Variable twiddle_real twiddle_imag : list Z.
Variable print_short : Z -> bytes.
Variable print_double : double -> Z -> bytes.
Variable atof : bytes -> double.
Variable cos : double -> double.

(** The first half of [loop]: the analysis of a frame that is ready.  Ten
    loop tests are all [fft_radix2_512] needs ([fft_stages_design]).  The
    transform and the bit reversal get the frame pointer and work on the 512
    samples behind it; they reach no sample beyond these
    ([analysis_stays_in_frame]). *)
Definition loop_analysis (b : board) (m : machine) : machine :=
  let s := sampling m in
  if geodata_buffer_full s then
    let imag := replicate (Z.to_nat NUMBER_OF_GEODATA_SAMPLES) 0 in
    match geodata_samples_real s with
    | Some off =>
        let real := sub_array off NUMBER_OF_GEODATA_SAMPLES (geodata_samples s) in
        let '(real, imag) :=
          default (real, imag)
            (fft_radix2_512 b twiddle_real twiddle_imag 10 real imag) in
        let '(real, imag) :=
          bit_reverse_complex real imag NUMBER_OF_GEODATA_SAMPLES in
        let '(out, created) :=
          report b print_short print_double real imag
            (NUMBER_OF_GEODATA_SAMPLES / 2 + 1) (amplitude_threshold m)
            (report_was_created (blinking m)) in
        Machine
          (Sampler (put_array off real (geodata_samples s)) (Some off)
             (isr_hamming_window_index s) (isr_current_geodata_index s) false)
          imag (amplitude_threshold m)
          (Blinker created (blink_timestamp (blinking m))
             (blink_led_on (blinking m)) (report_led (blinking m)))
          (threshold_input m)
          (Serial (serial_rx (port m)) (serial_tx (port m) ++ out))
          (eeprom m)
    | None =>
        Machine
          (Sampler (geodata_samples s) None (isr_hamming_window_index s)
             (isr_current_geodata_index s) false)
          imag (amplitude_threshold m) (blinking m) (threshold_input m)
          (port m) (eeprom m)
    end
  else m.

(** [loop] at time [now]. *)
Definition loop (b : board) (now : Z) (m : machine) : machine :=
  let m := loop_analysis b m in
  let '(amplitude_threshold, eeprom, p, io) :=
    loop_threshold atof print_double b now (amplitude_threshold m) (eeprom m)
      (threshold_input m) (port m) in
  Machine (sampling m) (geodata_samples_imag m) amplitude_threshold
    (blinking m) p io eeprom.

(** What happens to the machine: a timer interrupt with the reading of the
    ADC, a pass through [loop], or a byte arriving on the serial line. *)
Inductive event :=
| Tick (raw now : Z)
| Loop (now : Z)
| Receive (c : ascii).

Definition step (b : board) (m : machine) (e : event) : machine :=
  match e with
  | Tick raw now =>
      let '(s, k) := sampling_interrupt cos b raw now (sampling m) (blinking m) in
      Machine s (geodata_samples_imag m) (amplitude_threshold m) k
        (threshold_input m) (port m) (eeprom m)
  | Loop now => loop b now m
  | Receive c =>
      Machine (sampling m) (geodata_samples_imag m) (amplitude_threshold m)
        (blinking m) (threshold_input m)
        (Serial (serial_rx (port m) ++ [c]) (serial_tx (port m))) (eeprom m)
  end.

(** The machine after [setup] and a sequence of events. *)
Definition run (b : board) (eeprom : list Z) (events : list event) : machine :=
  fold_left (step b) events (setup b (power_on eeprom)).

End Sketch.

(** The number of timer interrupts among the events. *)
Definition ticks (events : list event) : Z :=
  Z.of_nat (length (List.filter (fun e => match e with Tick _ _ => true | _ => false end) events)).

(** ** Invariants *)

(** The state of the sampler after [n] timer interrupts: the buffer keeps
    its 1024 elements, the fill index is [n mod 1024], the window position
    [n mod 512], the frame pointer is null before the first frame is
    complete and afterwards points to the half that was completed last, and
    the semaphore is only up when a frame has been completed. *)
Definition sampler_invariant (n : Z) (s : sampler) : Prop :=
  length (geodata_samples s) = 1024%nat
  /\ isr_current_geodata_index s = n mod 1024
  /\ isr_hamming_window_index s = n mod 512
  /\ geodata_samples_real s
     = (if n <? 512 then None
        else Some (if n mod 1024 <? 512 then 512 else 0))
  /\ (geodata_buffer_full s = true -> 512 <= n).

(** Two arrays with the lengths of two given ones. *)
Definition same_lengths (d0 d : list Z * list Z) : Prop :=
  length (fst d) = length (fst d0) /\ length (snd d) = length (snd d0).


(** A threshold is in the unit interval: [0.0 <= t] and [t < 1.0]. *)
Definition in_unit (t : double) : bool :=
  PrimFloat.leb 0 t && PrimFloat.ltb t 1.

(** What one call of [get_new_threshold] can send. *)
Inductive reply :=
| Quiet
| Error (message : string)
| Ok (value : double).

(** The bytes of a reply, as they appear on the serial line. *)
Definition reply_bytes (print_double : double -> Z -> bytes) (r : reply) : bytes :=
  match r with
  | Quiet => []
  | Error message => text "E:" ++ text message ++ crlf
  | Ok value => text "OK:" ++ print_double value 2 ++ crlf
  end.

(** The deadline of an accumulation started at [timestamp] has passed at
    [now]: [timestamp + timeout < millis( )] in [unsigned long]. *)
Definition timed_out (p : protocol) (now : Z) : bool :=
  (0 <? threshold_string_pos p) && (to_ulong (timestamp p + 250) <? now).

(** The buffer has its 20 bytes and the position is inside it, leaving room
    for the terminating NUL. *)
Definition protocol_invariant (p : protocol) : Prop :=
  length (threshold_string p) = 20%nat /\ 0 <= threshold_string_pos p <= 19.

(** [get_new_threshold] called once at each of the times [nows]: the value
    returned by the last call ([last] when there is none). *)
Fixpoint get_new_threshold_calls (atof : bytes -> double)
    (print_double : double -> Z -> bytes) (nows : list Z)
    (last : double) (p : protocol) (io : serial) : double * protocol * serial :=
  match nows with
  | [] => (last, p, io)
  | now :: nows' =>
      let '(r, p, io) := get_new_threshold atof print_double now p io in
      get_new_threshold_calls atof print_double nows' r p io
  end.

Definition is_numeric (c : ascii) : bool := is_digit c || is_dot c.
Definition is_terminator (c : ascii) : bool := Ascii.eqb c CR || Ascii.eqb c LF.

(** The rejection that a call at [now] ends in, if any: the deadline of a
    partial input has passed; or a byte arrives when 19 are accumulated; or
    a terminator arrives and the text reads as a value outside [0.0, 1.0);
    or a byte arrives that is no terminator, digit or dot. *)
Definition rejection (atof : bytes -> double) (now : Z) (p : protocol)
    (io : serial) : option string :=
  if timed_out p now then Some "TIMEOUT"%string
  else
    match serial_rx io with
    | [] => None
    | c :: _ =>
        if 19 <=? threshold_string_pos p then Some "FLUSH"%string
        else if is_terminator c then
          let text :=
            c_string (<[Z.to_nat (threshold_string_pos p) := NUL]>
                        (threshold_string p)) in
          if PrimFloat.ltb (atof text) 0 || PrimFloat.leb 1 (atof text)
          then Some "OVERFLOW"%string
          else None
        else if is_numeric c then None
        else Some "NON-NUMERIC"%string
    end.

(** No byte arrives on the serial line during the events. *)
Definition no_receive (events : list event) : bool :=
  forallb (fun e => match e with Receive _ => false | _ => true end) events.

(** The state of a sketch that started with a NaN threshold and has not
    received a byte. *)
Definition silent (m : machine) : Prop :=
  amplitude_threshold m = nan
  /\ serial_rx (port m) = [] /\ serial_tx (port m) = []
  /\ threshold_string_pos (threshold_input m) = 0.

(** ** Stand-ins for the library functions

    To run the model, and to instantiate the theorems below, the library
    functions that the sketch calls need values.  These are simple versions
    of them, not the libraries' code: decimal printing as the Arduino core
    does it, a reader of unsigned decimal numbers for [atof], and the Taylor
    polynomial of degree 48 for [cos]. *)

Definition digit_char (d : Z) : ascii := ascii_of_nat (Z.to_nat (48 + d)).

Fixpoint decimal_digits (fuel : nat) (n : Z) (acc : bytes) : bytes :=
  match fuel with
  | O => acc
  | S fuel' =>
      let acc := digit_char (n mod 10) :: acc in
      if n / 10 =? 0 then acc else decimal_digits fuel' (n / 10) acc
  end.

Definition print_integer (z : Z) : bytes :=
  if z <? 0 then text "-" ++ decimal_digits 20 (- z) []
  else decimal_digits 20 z [].

Fixpoint print_fraction (digits : nat) (remainder : double) : bytes :=
  match digits with
  | O => []
  | S digits' =>
      let remainder := (remainder * 10)%float in
      let toPrint := Z_of_double remainder in
      print_integer toPrint
        ++ print_fraction digits' (remainder - double_of_Z toPrint)%float
  end.

Fixpoint rounding_of (digits : nat) (rounding : double) : double :=
  match digits with
  | O => rounding
  | S digits' => rounding_of digits' (rounding / 10)%float
  end.

Definition print_fixed (number : double) (digits : Z) : bytes :=
  if PrimFloat.is_nan number then text "nan"
  else if PrimFloat.is_infinity number then text "inf"
  else if PrimFloat.ltb 4294967040 number then text "ovf"
  else if PrimFloat.ltb number (-4294967040) then text "ovf"
  else
    let sign := if PrimFloat.ltb number 0 then text "-" else [] in
    let number := if PrimFloat.ltb number 0 then PrimFloat.opp number else number in
    let number := (number + rounding_of (Z.to_nat digits) 0.5)%float in
    let int_part := Z_of_double number in
    let remainder := (number - double_of_Z int_part)%float in
    sign ++ print_integer int_part
      ++ (if 0 <? digits then text "." else [])
      ++ print_fraction (Z.to_nat digits) remainder.

(** Digits, then possibly a dot and more digits; reading stops at anything
    else.  The value is the quotient of the digits read and the power of
    ten of the fraction. *)
Fixpoint read_decimal (s : bytes) (seen_dot : bool) (num scale : Z) : Z * Z :=
  match s with
  | [] => (num, scale)
  | c :: s' =>
      if is_digit c then
        let d := Z.of_nat (nat_of_ascii c) - 48 in
        read_decimal s' seen_dot (10 * num + d)
          (if seen_dot then 10 * scale else scale)
      else if is_dot c && negb seen_dot then read_decimal s' true num scale
      else (num, scale)
  end.

Definition atof_decimal (s : bytes) : double :=
  let '(num, scale) := read_decimal s false 0 1 in
  (double_of_Z num / double_of_Z scale)%float.

Fixpoint cos_terms (n : nat) (k : Z) (x2 term sum : double) : double :=
  match n with
  | O => sum
  | S n' =>
      let term :=
        (PrimFloat.opp term * x2 / double_of_Z ((2 * k + 1) * (2 * k + 2)))%float in
      cos_terms n' (k + 1) x2 term (sum + term)%float
  end.

Definition cos_series (x : double) : double :=
  cos_terms 24 0 (x * x)%float 1 1.
(** * Properties

    ** Tactics *)

(** Case analysis on the integer tests of a goal, then linear arithmetic
    with the divisions and remainders spelled out. *)
Ltac ztests :=
  repeat match goal with
  | |- context [?a <? ?b] => destruct (Z.ltb_spec a b)
  | |- context [?a =? ?b] => destruct (Z.eqb_spec a b)
  | H : context [?a <? ?b] |- _ => destruct (Z.ltb_spec a b)
  | H : context [?a =? ?b] |- _ => destruct (Z.eqb_spec a b)
  end.

Ltac zmod := Z.div_mod_to_equations; lia.

(** ** Fixed-point multiplication *)

Lemma to_short_range z : is_short (to_short z).
Proof.
  unfold is_short, to_short.
  pose proof (Z.mod_pos_bound (z + 32768) 65536). lia.
Qed.

Lemma to_short_id z : is_short z -> to_short z = z.
Proof. unfold is_short, to_short. intros H. rewrite Z.mod_small; lia. Qed.

Lemma to_short_mod z : to_short (z mod 65536) = to_short z.
Proof.
  unfold to_short. f_equal.
  rewrite Zplus_mod_idemp_l. reflexivity.
Qed.

Lemma to_long_id z : -2147483648 <= z <= 2147483647 -> to_long z = z.
Proof. unfold to_long. intros H. rewrite Z.mod_small; lia. Qed.

Lemma to_int_id bd z : is_int bd z -> to_int bd z = z.
Proof.
  destruct bd; cbn [is_int to_int]; intros H;
    [apply to_short_id; exact H|apply to_long_id; exact H].
Qed.

(** Storing an [int] in a [short] keeps the low 16 bits, whatever the width
    of [int]. *)
Lemma to_short_to_int bd z : to_short (to_int bd z) = to_short z.
Proof.
  destruct bd; cbn [to_int]; unfold to_short, to_long; f_equal; zmod.
Qed.

Lemma short_product_is_int_due a b :
  is_short a -> is_short b -> is_int ARDUINO_SAM_DUE (a * b).
Proof. unfold is_short. cbn [is_int]. intros Ha Hb. nia. Qed.

Lemma q15_mul16_fits bd a b :
  is_int bd (a * b) -> q15_mul16 bd a b = to_short (Z.shiftr (a * b) 15).
Proof.
  intros Hfit. unfold q15_mul16. cbv zeta. rewrite (to_int_id bd) by exact Hfit.
  rewrite to_long_id by (destruct bd; cbn [is_int] in Hfit; lia).
  change 65535 with (Z.ones 16). rewrite Z.land_ones by lia.
  change (2 ^ 16) with 65536. apply to_short_mod.
Qed.

(** C4.  The product is formed in [int].  On the Due it is exact, and half
    times half is a quarter.  On the Mega [int] has 16 bits: 16384 * 16384
    overflows to 0 before it is widened to [long], and the result is 0
    where the shifted 32-bit product is 8192. *)
Theorem q15_mul16_mega_product_overflows :
  q15_mul16 ARDUINO_AVR_MEGA2560 16384 16384 = 0
  /\ to_short (Z.shiftr (16384 * 16384) 15) = 8192
  /\ q15_mul16 ARDUINO_SAM_DUE 16384 16384 = 8192.
Proof. repeat split; reflexivity. Qed.

(** X17.  Whenever the exact product of the two 16-bit operands fits the
    board's [int] (on the Due it always does, on the Mega only when it lies
    in [-32768, 32767]), the result is that product shifted right by 15 and
    cut to 16 bits.  Except for -32768 times -32768 this is the product
    divided by 32768 and rounded down (toward minus infinity, not to
    nearest and not toward zero). *)
Theorem q15_mul16_rounds_down (bd : board) (a b : Z) :
  is_short a -> is_short b ->
  is_int bd (a * b) ->
  q15_mul16 bd a b = to_short (Z.shiftr (a * b) 15)
  /\ is_int ARDUINO_SAM_DUE (a * b)
  /\ (a <> -32768 \/ b <> -32768 ->
      q15_mul16 bd a b = a * b / 32768
      /\ 32768 * q15_mul16 bd a b <= a * b < 32768 * q15_mul16 bd a b + 32768).
Proof.
  intros Ha Hb Hfit.
  split; [apply q15_mul16_fits; exact Hfit|].
  split; [apply short_product_is_int_due; assumption|].
  intros Hne.
  assert (E : q15_mul16 bd a b = a * b / 32768).
  { rewrite q15_mul16_fits by exact Hfit.
    rewrite Z.shiftr_div_pow2 by lia. change (2 ^ 15) with 32768.
    apply to_short_id. unfold is_short in *.
    assert (-32768 * 32767 <= a * b <= 32767 * 32768) by nia.
    zmod. }
  split; [exact E|]. rewrite E. zmod.
Qed.

Lemma q15_mul16_rounds_down_witness :
  q15_mul16 ARDUINO_SAM_DUE (-3) 20000
  = to_short (Z.shiftr (-3 * 20000) 15)
  /\ is_int ARDUINO_SAM_DUE (-3 * 20000)
  /\ (-3 <> -32768 \/ 20000 <> -32768 ->
      q15_mul16 ARDUINO_SAM_DUE (-3) 20000 = -3 * 20000 / 32768
      /\ 32768 * q15_mul16 ARDUINO_SAM_DUE (-3) 20000 <= -3 * 20000
         < 32768 * q15_mul16 ARDUINO_SAM_DUE (-3) 20000 + 32768).
Proof.
  apply (q15_mul16_rounds_down ARDUINO_SAM_DUE (-3) 20000);
    unfold is_short; cbn [is_int]; lia.
Defined.

(** ** Bit reversal *)

Example bit_reversed_examples :
  bit_reversed 9 1 = 256 /\ bit_reversed 9 2 = 128 /\ bit_reversed 9 3 = 384
  /\ bit_reversed 9 511 = 511 /\ bit_reversed 9 0 = 0.
Proof. repeat split; reflexivity. Qed.

Example bit_reverse_small :
  bit_reverse_complex [0;1;2;3;4;5;6;7] [10;11;12;13;14;15;16;17] 8
  = ([0;4;2;6;1;5;3;7], [10;14;12;16;11;15;13;17]).
Proof. vm_compute. reflexivity. Qed.

(** The trailing-zero loop has left a 32-bit [nodd] within 33 tests: more
    fuel changes nothing. *)
Lemma count_zeros_enough k nodd zeros m :
  0 <= nodd < 2 ^ Z.of_nat k ->
  count_zeros (S k + m) nodd zeros = count_zeros (S k) nodd zeros.
Proof.
  revert nodd zeros. induction k as [|k IH]; intros nodd zeros H.
  - assert (nodd = 0) by (change (2 ^ Z.of_nat 0) with 1 in H; lia).
    subst nodd. reflexivity.
  - change (S (S k) + m)%nat with (S (S k + m)).
    cbn [count_zeros]. destruct (Z.land nodd 1 =? 0); [reflexivity|].
    apply (IH (Z.shiftr nodd 1) (zeros + 1)).
    rewrite Z.shiftr_div_pow2 by lia. change (2 ^ 1) with 2.
    rewrite Nat2Z.inj_succ, Z.pow_succ_r in H by lia.
    split; [apply Z.div_pos; lia|apply Z.div_lt_upper_bound; lia].
Qed.

Lemma count_zeros_fuel nodd fuel :
  0 <= nodd < 4294967296 -> (33 <= fuel)%nat ->
  count_zeros fuel nodd 0 = count_zeros 33 nodd 0.
Proof.
  intros H Hf. replace fuel with (33 + (fuel - 33))%nat by lia.
  apply (count_zeros_enough 32). exact H.
Qed.

Lemma length_swap_array i j a : length (swap_array i j a) = length a.
Proof. unfold swap_array, wr. rewrite !length_insert. reflexivity. Qed.

Lemma rd_fmap (f : Z -> Z) a i :
  0 <= i < Z.of_nat (length a) -> rd (f <$> a) i = f (rd a i).
Proof.
  intros Hi. unfold rd. rewrite list_lookup_fmap.
  destruct (lookup_lt_is_Some_2 a (Z.to_nat i)) as [x Hx]; [lia|].
  rewrite Hx. reflexivity.
Qed.

Lemma swap_array_fmap (f : Z -> Z) i j a :
  0 <= i < Z.of_nat (length a) -> 0 <= j < Z.of_nat (length a) ->
  swap_array i j (f <$> a) = f <$> swap_array i j a.
Proof.
  intros Hi Hj. unfold swap_array, wr. cbv zeta.
  rewrite !list_fmap_insert, !rd_fmap by assumption. reflexivity.
Qed.

Lemma apply_swaps_app sw1 sw2 a :
  apply_swaps (sw1 ++ sw2) a = apply_swaps sw2 (apply_swaps sw1 a).
Proof.
  revert a. induction sw1 as [|[i j] sw1 IH]; intros a; simpl; [reflexivity|].
  apply IH.
Qed.

Lemma length_apply_swaps sw a : length (apply_swaps sw a) = length a.
Proof.
  revert a. induction sw as [|[i j] sw IH]; intros a; simpl; [reflexivity|].
  rewrite IH. apply length_swap_array.
Qed.

Lemma apply_swaps_fmap (f : Z -> Z) sw a :
  forallb (swap_in_range (Z.of_nat (length a))) sw = true ->
  apply_swaps sw (f <$> a) = f <$> apply_swaps sw a.
Proof.
  revert a. induction sw as [|[i j] sw IH]; intros a H; simpl in *.
  - reflexivity.
  - apply andb_prop in H as [Hij H].
    unfold swap_in_range in Hij. simpl in Hij.
    rewrite swap_array_fmap by lia.
    apply IH. rewrite length_swap_array. exact H.
Qed.

(** The loop only ever exchanges the pairs of [bit_reverse_swaps]. *)
Lemma bit_reverse_loop_swaps N n s :
  let s' := bit_reverse_loop N n s in
  let sw := bit_reverse_swaps N n (br_forward s) (br_rev s) in
  br_real s' = apply_swaps sw (br_real s)
  /\ br_imag s' = apply_swaps sw (br_imag s).
Proof.
  revert s. induction n as [|n IH]; intros s; [split; reflexivity|].
  cbn [bit_reverse_loop bit_reverse_swaps].
  specialize (IH (bit_reverse_body N (Z.of_nat (S n)) s)).
  cbv zeta in IH. destruct IH as [IHr IHi].
  cbv zeta. rewrite IHr, IHi. clear IHr IHi.
  unfold bit_reverse_body, bit_reverse_body_swaps, swap. cbv zeta.
  destruct (Z.ltb _ _); cbn [br_forward br_rev br_real br_imag];
    rewrite !apply_swaps_app; split; reflexivity.
Qed.

Lemma bit_reverse_complex_swaps real imag N :
  let sw := bit_reverse_swaps N (Z.to_nat (Z.shiftr N 2))
              (to_ulong (Z.shiftr N 1)) 1 in
  bit_reverse_complex real imag N = (apply_swaps sw real, apply_swaps sw imag).
Proof.
  cbv zeta. unfold bit_reverse_complex. cbv zeta.
  pose proof (bit_reverse_loop_swaps N (Z.to_nat (Z.shiftr N 2))
                (BrState (to_ulong (Z.shiftr N 1)) 1 real imag)) as H.
  cbv zeta in H. cbn [br_forward br_rev br_real br_imag] in H.
  destruct H as [-> ->]. reflexivity.
Qed.

Lemma elem_of_iota n j : j ∈ iota n <-> 0 <= j < Z.of_nat n.
Proof.
  unfold iota. rewrite list_elem_of_fmap. split.
  - intros (k & -> & Hk). apply elem_of_seq in Hk. lia.
  - intros Hj. exists (Z.to_nat j). split; [lia|]. apply elem_of_seq. lia.
Qed.

Lemma forallb_iota (P : Z -> bool) n :
  forallb P (iota n) = true -> forall j, 0 <= j < Z.of_nat n -> P j = true.
Proof.
  intros H j Hj. rewrite forallb_forall in H. apply H.
  apply list_elem_of_In, elem_of_iota, Hj.
Qed.

(** An array is the table of its own reads. *)
Lemma array_as_reads a : a = rd a <$> iota (length a).
Proof.
  apply list_eq. intros k. unfold iota.
  rewrite <- list_fmap_compose, list_lookup_fmap.
  destruct (decide (k < length a)%nat) as [Hk|Hk].
  - rewrite lookup_seq_lt by exact Hk. simpl. unfold rd.
    rewrite Nat2Z.id. destruct (lookup_lt_is_Some_2 a k Hk) as [x Hx].
    rewrite Hx. reflexivity.
  - rewrite lookup_seq_ge by lia. apply lookup_ge_None. lia.
Qed.

Lemma rd_reads (f : Z -> Z) n j :
  0 <= j < Z.of_nat n -> rd (f <$> iota n) j = f j.
Proof.
  intros Hj. unfold rd, iota.
  rewrite <- list_fmap_compose, list_lookup_fmap.
  rewrite lookup_seq_lt by lia. simpl. f_equal. lia.
Qed.

(** The swaps of a 512-point permutation, all inside the array, and what
    they do to the index table: by evaluation. *)
Definition swaps_512 : list (Z * Z) :=
  bit_reverse_swaps 512 (Z.to_nat (Z.shiftr 512 2)) (to_ulong (Z.shiftr 512 1)) 1.

Lemma swaps_512_in_range : forallb (swap_in_range 512) swaps_512 = true.
Proof. vm_compute. reflexivity. Qed.

Lemma swaps_512_table :
  apply_swaps swaps_512 (iota 512) = bit_reversed 9 <$> iota 512.
Proof. vm_compute. reflexivity. Qed.

Lemma bit_reversed_9_involutive :
  forall j, 0 <= j < 512 ->
  0 <= bit_reversed 9 j < 512 /\ bit_reversed 9 (bit_reversed 9 j) = j.
Proof.
  intros j Hj.
  pose proof (forallb_iota
    (fun j => (0 <=? bit_reversed 9 j) && (bit_reversed 9 j <? 512)
              && (bit_reversed 9 (bit_reversed 9 j) =? j)) 512) as H.
  specialize (H ltac:(vm_compute; reflexivity) j ltac:(lia)).
  cbv beta in H. apply andb_prop in H as [H H3]. apply andb_prop in H as [H1 H2].
  apply Z.leb_le in H1. apply Z.ltb_lt in H2. apply Z.eqb_eq in H3. lia.
Qed.

(** [bit_reversed 9] does reverse the nine index bits. *)
Lemma bit_reversed_9_testbit j k :
  0 <= j < 512 -> 0 <= k < 9 ->
  Z.testbit (bit_reversed 9 j) k = Z.testbit j (8 - k).
Proof.
  intros Hj Hk.
  pose proof (forallb_iota
    (fun j => forallb (fun k => Bool.eqb (Z.testbit (bit_reversed 9 j) k)
                                         (Z.testbit j (8 - k))) (iota 9)) 512) as H.
  specialize (H ltac:(vm_compute; reflexivity) j ltac:(lia)).
  cbv beta in H. pose proof (forallb_iota _ 9 H k ltac:(lia)) as H'.
  cbv beta in H'. apply Bool.eqb_prop in H'. exact H'.
Qed.

Lemma apply_swaps_512 a :
  length a = 512%nat -> apply_swaps swaps_512 a = (fun j => rd a (bit_reversed 9 j)) <$> iota 512.
Proof.
  intros Ha. rewrite (array_as_reads a) at 1. rewrite Ha.
  rewrite apply_swaps_fmap.
  - rewrite swaps_512_table, <- list_fmap_compose. reflexivity.
  - replace (Z.of_nat (length (iota 512))) with 512.
    + exact swaps_512_in_range.
    + unfold iota. rewrite length_fmap, length_seq. reflexivity.
Qed.

Lemma apply_swaps_512_twice a :
  length a = 512%nat -> apply_swaps swaps_512 (apply_swaps swaps_512 a) = a.
Proof.
  intros Ha.
  rewrite (apply_swaps_512 (apply_swaps swaps_512 a))
    by (rewrite length_apply_swaps; exact Ha).
  transitivity (rd a <$> iota 512);
    [|rewrite <- Ha; symmetry; apply array_as_reads].
  apply list_fmap_ext. intros k j Hkj.
  assert (Hj : 0 <= j < 512).
  { apply list_elem_of_lookup_2 in Hkj. apply elem_of_iota in Hkj. lia. }
  destruct (bit_reversed_9_involutive j Hj) as [Hr Hrr].
  rewrite apply_swaps_512 by exact Ha.
  rewrite rd_reads by lia. rewrite Hrr. reflexivity.
Qed.

(** C2.  On two arrays of 512 elements [bit_reverse_complex] leaves at every
    index [j] the element that was at the 9-bit reversal of [j], in the real
    and in the imaginary array alike; applied a second time it gives the
    original arrays back. *)
Theorem bit_reverse_complex_spec (real imag : list Z) :
  length real = 512%nat -> length imag = 512%nat ->
  let '(real', imag') := bit_reverse_complex real imag 512 in
  (forall j, 0 <= j < 512 ->
     rd real' j = rd real (bit_reversed 9 j)
     /\ rd imag' j = rd imag (bit_reversed 9 j))
  /\ bit_reverse_complex real' imag' 512 = (real, imag).
Proof.
  intros Hr Hi.
  rewrite (bit_reverse_complex_swaps real imag 512). cbv zeta.
  fold swaps_512. split.
  - intros j Hj. rewrite !apply_swaps_512 by assumption.
    rewrite !rd_reads by lia. split; reflexivity.
  - rewrite bit_reverse_complex_swaps. cbv zeta. fold swaps_512.
    rewrite !apply_swaps_512_twice by assumption. reflexivity.
Qed.

Lemma bit_reverse_complex_spec_witness :
  let '(real', imag') :=
    bit_reverse_complex (iota 512) (Z.opp <$> iota 512) 512 in
  (forall j, 0 <= j < 512 ->
     rd real' j = rd (iota 512) (bit_reversed 9 j)
     /\ rd imag' j = rd (Z.opp <$> iota 512) (bit_reversed 9 j))
  /\ bit_reverse_complex real' imag' 512 = (iota 512, Z.opp <$> iota 512).
Proof.
  apply (bit_reverse_complex_spec (iota 512) (Z.opp <$> iota 512));
    vm_compute; reflexivity.
Defined.

(** *** [swap] *)

Lemma length_wr a i v : length (wr a i v) = length a.
Proof. unfold wr. apply length_insert. Qed.

Lemma rd_wr a i v k :
  0 <= i < Z.of_nat (length a) -> 0 <= k ->
  rd (wr a i v) k = if k =? i then v else rd a k.
Proof.
  intros Hi Hk. unfold rd, wr. destruct (Z.eqb_spec k i) as [->|Hne].
  - rewrite list_lookup_insert_eq by lia. reflexivity.
  - rewrite list_lookup_insert_ne by lia. reflexivity.
Qed.

Lemma rd_swap_array i j a k :
  0 <= i < Z.of_nat (length a) -> 0 <= j < Z.of_nat (length a) -> 0 <= k ->
  rd (swap_array i j a) k
  = if k =? j then rd a i else if k =? i then rd a j else rd a k.
Proof.
  intros Hi Hj Hk. unfold swap_array. cbv zeta.
  rewrite rd_wr by (rewrite ?length_wr; lia).
  destruct (Z.eqb_spec k j); [reflexivity|].
  rewrite rd_wr by lia. reflexivity.
Qed.

Lemma array_ext a b :
  length a = length b ->
  (forall k, 0 <= k < Z.of_nat (length a) -> rd a k = rd b k) ->
  a = b.
Proof.
  intros Hlen H. rewrite (array_as_reads a), (array_as_reads b), <- Hlen.
  apply list_fmap_ext. intros n k Hk.
  apply H. apply list_elem_of_lookup_2, elem_of_iota in Hk. exact Hk.
Qed.

Lemma swap_array_twice i j a :
  0 <= i < Z.of_nat (length a) -> 0 <= j < Z.of_nat (length a) ->
  swap_array i j (swap_array i j a) = a.
Proof.
  intros Hi Hj. apply array_ext; [rewrite !length_swap_array; reflexivity|].
  intros k Hk. rewrite !length_swap_array in Hk.
  rewrite !rd_swap_array by (rewrite ?length_swap_array; lia).
  rewrite !Z.eqb_refl.
  destruct (Z.eqb_spec k j) as [->|Hkj]; [destruct (Z.eqb_spec i j); congruence|].
  destruct (Z.eqb_spec k i) as [->|Hki]; [|reflexivity].
  destruct (Z.eqb_spec j i); congruence.
Qed.

(** X18.  [swap] on two indices inside the arrays exchanges the two complex
    numbers, real and imaginary part, and leaves every other element and
    the lengths as they are; swapping the same two again gives the arrays
    back. *)
Theorem swap_exchanges (first second : Z) (real imaginary : list Z) :
  0 <= first < Z.of_nat (length real) ->
  0 <= second < Z.of_nat (length real) ->
  length imaginary = length real ->
  let '(real', imaginary') := swap first second real imaginary in
  rd real' first = rd real second /\ rd real' second = rd real first
  /\ rd imaginary' first = rd imaginary second
  /\ rd imaginary' second = rd imaginary first
  /\ (forall k, 0 <= k -> k <> first -> k <> second ->
        rd real' k = rd real k /\ rd imaginary' k = rd imaginary k)
  /\ length real' = length real /\ length imaginary' = length imaginary
  /\ swap first second real' imaginary' = (real, imaginary).
Proof.
  intros Hf Hs Hlen. unfold swap.
  assert (Hf' : 0 <= first < Z.of_nat (length imaginary)) by (rewrite Hlen; exact Hf).
  assert (Hs' : 0 <= second < Z.of_nat (length imaginary)) by (rewrite Hlen; exact Hs).
  rewrite !rd_swap_array by lia. rewrite !Z.eqb_refl.
  rewrite !length_swap_array, !swap_array_twice by assumption.
  repeat split.
  - destruct (Z.eqb_spec first second); congruence.
  - destruct (Z.eqb_spec first second); congruence.
  - rewrite rd_swap_array by lia.
    destruct (Z.eqb_spec k second); [contradiction|].
    destruct (Z.eqb_spec k first); [contradiction|reflexivity].
  - rewrite rd_swap_array by lia.
    destruct (Z.eqb_spec k second); [contradiction|].
    destruct (Z.eqb_spec k first); [contradiction|reflexivity].
Qed.

Lemma swap_exchanges_witness :
  let '(real', imaginary') := swap 0 2 [5; 6; 7] [8; 9; 10] in
  rd real' 0 = rd [5; 6; 7] 2 /\ rd real' 2 = rd [5; 6; 7] 0
  /\ rd imaginary' 0 = rd [8; 9; 10] 2
  /\ rd imaginary' 2 = rd [8; 9; 10] 0
  /\ (forall k, 0 <= k -> k <> 0 -> k <> 2 ->
        rd real' k = rd [5; 6; 7] k /\ rd imaginary' k = rd [8; 9; 10] k)
  /\ length real' = length [5; 6; 7] /\ length imaginary' = length [8; 9; 10]
  /\ swap 0 2 real' imaginary' = ([5; 6; 7], [8; 9; 10]).
Proof.
  apply (swap_exchanges 0 2 [5; 6; 7] [8; 9; 10]); simpl; lia.
Defined.

(** *** Other lengths *)

Lemma forallb_zip_eq (l1 l2 : list Z) :
  length l1 = length l2 ->
  forallb (fun p => fst p =? snd p) (zip l1 l2) = true -> l1 = l2.
Proof.
  revert l2. induction l1 as [|x l1 IH]; intros [|y l2] Hlen H;
    try discriminate Hlen; [reflexivity|].
  cbn in H. apply andb_prop in H as [Hxy H]. apply Z.eqb_eq in Hxy.
  f_equal; [exact Hxy|]. apply IH; [|exact H].
  cbn [length] in Hlen. lia.
Qed.

Lemma length_iota n : length (iota n) = n.
Proof. unfold iota. rewrite length_fmap, length_seq. reflexivity. Qed.

Lemma bit_reverse_checks_hold k : (k <= 9)%nat -> bit_reverse_checks k = true.
Proof.
  intros Hk. do 10 (destruct k as [|k]; [vm_compute; reflexivity|]). lia.
Qed.

Lemma apply_swaps_power_of_two k a :
  (k <= 9)%nat -> length a = (2 ^ k)%nat ->
  apply_swaps (swaps_of_length (Z.of_nat (2 ^ k))) a
  = (fun j => rd a (bit_reversed k j)) <$> iota (2 ^ k).
Proof.
  intros Hk Ha. pose proof (bit_reverse_checks_hold k Hk) as H.
  unfold bit_reverse_checks in H. cbv zeta in H.
  apply andb_prop in H as [H _]. apply andb_prop in H as [Hrange Htable].
  apply forallb_zip_eq in Htable;
    [|rewrite length_apply_swaps, length_fmap; reflexivity].
  rewrite (array_as_reads a) at 1. rewrite Ha.
  rewrite apply_swaps_fmap by (rewrite length_iota; exact Hrange).
  rewrite Htable, <- list_fmap_compose. reflexivity.
Qed.

(** X19.  For every power-of-two length up to 512, [bit_reverse_complex]
    leaves at each index [j] the element that was at the index with the bits
    of [j] reversed, and a second pass gives the original arrays back.  For
    the lengths 1 and 2 this means that nothing moves: the loop body does
    not run. *)
Theorem bit_reverse_complex_power_of_two (k : nat) (real imag : list Z) :
  (k <= 9)%nat ->
  length real = (2 ^ k)%nat -> length imag = (2 ^ k)%nat ->
  let N := Z.of_nat (2 ^ k) in
  let '(real', imag') := bit_reverse_complex real imag N in
  (forall j, 0 <= j < N ->
     rd real' j = rd real (bit_reversed k j)
     /\ rd imag' j = rd imag (bit_reversed k j))
  /\ bit_reverse_complex real' imag' N = (real, imag).
Proof.
  intros Hk Hr Hi. cbv zeta.
  rewrite (bit_reverse_complex_swaps real imag). cbv zeta.
  fold (swaps_of_length (Z.of_nat (2 ^ k))).
  pose proof (bit_reverse_checks_hold k Hk) as H.
  unfold bit_reverse_checks in H. cbv zeta in H.
  apply andb_prop in H as [_ Hinv].
  pose proof (forallb_iota _ _ Hinv) as Hinv'. cbv beta in Hinv'.
  split.
  - intros j Hj. rewrite !apply_swaps_power_of_two by assumption.
    rewrite !rd_reads by lia. split; reflexivity.
  - rewrite bit_reverse_complex_swaps. cbv zeta.
    fold (swaps_of_length (Z.of_nat (2 ^ k))).
    assert (Htwice : forall a, length a = (2 ^ k)%nat ->
              apply_swaps (swaps_of_length (Z.of_nat (2 ^ k)))
                (apply_swaps (swaps_of_length (Z.of_nat (2 ^ k))) a) = a).
    { intros a Ha.
      rewrite (apply_swaps_power_of_two k (apply_swaps _ a))
        by (rewrite ?length_apply_swaps; assumption).
      transitivity (rd a <$> iota (2 ^ k));
        [|rewrite <- Ha; symmetry; apply array_as_reads].
      apply list_fmap_ext. intros n j Hnj.
      assert (Hj : 0 <= j < Z.of_nat (2 ^ k)).
      { apply list_elem_of_lookup_2 in Hnj. apply elem_of_iota in Hnj. exact Hnj. }
      specialize (Hinv' j Hj).
      apply andb_prop in Hinv' as [Hb H3]. apply andb_prop in Hb as [H1 H2].
      apply Z.leb_le in H1. apply Z.ltb_lt in H2. apply Z.eqb_eq in H3.
      rewrite apply_swaps_power_of_two by assumption.
      rewrite rd_reads by lia. rewrite H3. reflexivity. }
    rewrite !Htwice by assumption. reflexivity.
Qed.

Lemma bit_reverse_complex_power_of_two_witness :
  let N := Z.of_nat (2 ^ 4) in
  let '(real', imag') := bit_reverse_complex (iota 16) (Z.opp <$> iota 16) N in
  (forall j, 0 <= j < N ->
     rd real' j = rd (iota 16) (bit_reversed 4 j)
     /\ rd imag' j = rd (Z.opp <$> iota 16) (bit_reversed 4 j))
  /\ bit_reverse_complex real' imag' N = (iota 16, Z.opp <$> iota 16).
Proof.
  apply (bit_reverse_complex_power_of_two 4 (iota 16) (Z.opp <$> iota 16));
    [lia|reflexivity|reflexivity].
Defined.

(** ** The FFT *)

Lemma to_short_add_short a b : to_short (a + to_short b) = to_short (a + b).
Proof.
  unfold to_short. f_equal.
  replace (a + ((b + 32768) mod 65536 - 32768) + 32768)
    with (a + (b + 32768) mod 65536) by lia.
  rewrite Zplus_mod_idemp_r. f_equal. lia.
Qed.

Lemma zrange_S lo n : zrange lo (S n) = lo :: zrange (lo + 1) n.
Proof.
  unfold zrange. cbn [seq fmap list_fmap]. f_equal; [lia|].
  rewrite <- seq_shift. rewrite <- list_fmap_compose.
  apply list_fmap_ext. intros _ k _. simpl. lia.
Qed.

Lemma elem_of_zrange lo n x : x ∈ zrange lo n -> lo <= x < lo + Z.of_nat n.
Proof.
  unfold zrange. rewrite list_elem_of_fmap. intros (k & -> & Hk).
  apply elem_of_seq in Hk. lia.
Qed.

Lemma for_count_fold {S : Type} n i (body : Z -> S -> S) s :
  for_count n i body s = fold_left (fun s j => body j s) (zrange i n) s.
Proof.
  revert i s. induction n as [|n IH]; intros i s; [reflexivity|].
  rewrite zrange_S. simpl. apply IH.
Qed.

Lemma fold_left_ext_elem {A B : Type} (f g : A -> B -> A) l a :
  (forall x a, x ∈ l -> f a x = g a x) ->
  fold_left f l a = fold_left g l a.
Proof.
  revert a. induction l as [|x l IH]; intros a H; [reflexivity|].
  simpl. rewrite (H x a) by (left). apply IH.
  intros y b Hy. apply H. right. exact Hy.
Qed.

Lemma rd_wr_ne a i j v : 0 <= i -> 0 <= j -> i <> j -> rd (wr a i v) j = rd a j.
Proof.
  intros Hi Hj Hne. unfold rd, wr.
  rewrite list_lookup_insert_ne by lia. reflexivity.
Qed.

Section FFT_properties.

Variable bd : board.
Variable twiddle_real twiddle_imag : list Z.

(** The butterfly as coded, with its two stores in sequence, is the
    butterfly of the design, which takes both results from the old values. *)
Lemma fft_butterfly_design WR WI wingspan b d :
  0 <= b -> 0 < wingspan ->
  fft_butterfly bd WR WI wingspan b d = design_butterfly bd (WR, WI) wingspan b d.
Proof.
  intros Hb Hw. destruct d as [re im].
  unfold fft_butterfly, design_butterfly, complex_mul, complex_add, q15_cmul.
  cbn [fst snd].
  rewrite !rd_wr_ne by lia.
  rewrite !to_short_to_int.
  rewrite !to_short_add_short.
  repeat f_equal; lia.
Qed.

(** The stages: [2^s] groups, [256 / 2^s] pairs per group. *)
Lemma stage_shape s :
  (s <= 8)%nat ->
  0 < 256 / 2 ^ Z.of_nat s <= 256
  /\ 2 ^ Z.of_nat s * (256 / 2 ^ Z.of_nat s) = 256
  /\ 0 < 2 ^ Z.of_nat s.
Proof.
  intros Hs. do 9 (destruct s as [|s]; [repeat split; reflexivity || discriminate|]).
  lia.
Qed.

Lemma small_is_int z : 0 <= z <= 1024 -> is_int bd z.
Proof. destruct bd; cbn [is_int]; lia. Qed.

Lemma fft_group_design s g d :
  (s <= 8)%nat -> 0 <= g < 2 ^ Z.of_nat s ->
  fft_group bd twiddle_real twiddle_imag
    (256 / 2 ^ Z.of_nat s) (256 / 2 ^ Z.of_nat s) g d
  = fold_left
      (fun d b => design_butterfly bd (design_twiddle twiddle_real twiddle_imag g)
                    (256 / 2 ^ Z.of_nat s) b d)
      (zrange (2 * g * (256 / 2 ^ Z.of_nat s))
              (Z.to_nat (256 / 2 ^ Z.of_nat s))) d.
Proof.
  intros Hs Hg.
  destruct (stage_shape s Hs) as (Hw & Hprod & Hpos).
  unfold fft_group, for_loop, pgm_read_word_near. cbv zeta.
  rewrite !to_short_mod.
  rewrite (to_int_id bd (2 * g)) by (apply small_is_int; nia).
  rewrite (to_int_id bd (2 * g * _)) by (apply small_is_int; nia).
  rewrite (to_int_id bd) by (apply small_is_int; nia).
  replace (2 * g * (256 / 2 ^ Z.of_nat s) + 256 / 2 ^ Z.of_nat s
           - 2 * g * (256 / 2 ^ Z.of_nat s)) with (256 / 2 ^ Z.of_nat s) by lia.
  rewrite for_count_fold.
  apply fold_left_ext_elem. intros b d' Hb.
  apply elem_of_zrange in Hb.
  apply fft_butterfly_design; [nia|lia].
Qed.

Lemma fft_stage_design s d :
  (s <= 8)%nat ->
  for_loop 0 (2 ^ Z.of_nat s)
    (fft_group bd twiddle_real twiddle_imag
       (256 / 2 ^ Z.of_nat s) (256 / 2 ^ Z.of_nat s)) d
  = design_stage bd twiddle_real twiddle_imag d s.
Proof.
  intros Hs. unfold for_loop, design_stage. cbv zeta.
  rewrite Z.sub_0_r, for_count_fold.
  apply fold_left_ext_elem. intros g d' Hg.
  apply elem_of_zrange in Hg.
  apply fft_group_design; [exact Hs|].
  destruct (stage_shape s Hs) as (_ & _ & Hpos). lia.
Qed.

(** From stage [s] on, [n] stages remain and one more loop test ends the
    loop. *)
Lemma fft_stages_design n : forall s d k,
  (s + n = 9)%nat ->
  fft_stages bd twiddle_real twiddle_imag (S n + k) 512 (2 ^ Z.of_nat s)
    (256 / 2 ^ Z.of_nat s) (256 / 2 ^ Z.of_nat s) d
  = Some (fold_left (design_stage bd twiddle_real twiddle_imag) (seq s n) d).
Proof.
  induction n as [|n IH]; intros s d k Hs.
  - assert (s = 9%nat) by lia. subst s. reflexivity.
  - change (S (S n) + k)%nat with (S (S n + k)).
    cbn [fft_stages seq fold_left].
    assert (Hlt : (2 ^ Z.of_nat s <? 512) = true).
    { do 9 (destruct s as [|s]; [reflexivity|]). lia. }
    rewrite Hlt.
    rewrite fft_stage_design by lia.
    replace (to_int bd (Z.shiftl (2 ^ Z.of_nat s) 1)) with (2 ^ Z.of_nat (S s)).
    2:{ do 9 (destruct s as [|s]; [destruct bd; reflexivity|]). lia. }
    replace (Z.shiftr (256 / 2 ^ Z.of_nat s) 1) with (256 / 2 ^ Z.of_nat (S s)).
    2:{ do 9 (destruct s as [|s]; [reflexivity|]). lia. }
    apply IH. lia.
Qed.



End FFT_properties.

(** *** What the transform keeps *)

Lemma for_count_keeps {S : Type} (P : S -> Prop) n i (body : Z -> S -> S) s :
  (forall j x, P x -> P (body j x)) -> P s -> P (for_count n i body s).
Proof.
  intros Hbody. revert i s. induction n as [|n IH]; intros i s Hs; simpl.
  - exact Hs.
  - apply IH, Hbody, Hs.
Qed.

(** A property of the two arrays that every butterfly keeps is kept by the
    whole transform. *)
Lemma fft_stages_keeps (P : list Z * list Z -> Prop) bd tr ti :
  (forall WR WI w b d, P d -> P (fft_butterfly bd WR WI w b d)) ->
  forall fuel len stage ppg w d d',
  fft_stages bd tr ti fuel len stage ppg w d = Some d' -> P d -> P d'.
Proof.
  intros Hb. induction fuel as [|fuel IH]; intros len stage ppg w d d' H Hd;
    [discriminate|].
  cbn [fft_stages] in H. destruct (stage <? len).
  - apply IH in H; [exact H|].
    unfold for_loop. apply (for_count_keeps P); [|exact Hd].
    intros g x Hx. unfold fft_group, for_loop. cbv zeta.
    apply (for_count_keeps P); [|exact Hx].
    intros j y Hy. apply Hb, Hy.
  - injection H as <-. exact Hd.
Qed.

Lemma Forall_wr (P : Z -> Prop) a i v : Forall P a -> P v -> Forall P (wr a i v).
Proof. intros Ha Hv. unfold wr. apply Forall_insert; assumption. Qed.

Lemma rd_zeros n i : rd (replicate n 0) i = 0.
Proof.
  unfold rd. destruct (replicate n 0 !! Z.to_nat i) as [x|] eqn:E; [|reflexivity].
  apply lookup_replicate in E as [-> _]. reflexivity.
Qed.

Lemma wr_zeros n i : wr (replicate n 0) i 0 = replicate n 0.
Proof. unfold wr. apply insert_replicate. Qed.

Lemma q15_mul16_zero bd a : q15_mul16 bd a 0 = 0.
Proof. unfold q15_mul16. rewrite Z.mul_0_r. destruct bd; reflexivity. Qed.

Lemma to_int_zero bd : to_int bd 0 = 0.
Proof. destruct bd; reflexivity. Qed.

Section FFT_invariants.

Variable bd : board.
Variable twiddle_real twiddle_imag : list Z.

(** X20.  With fuel for ten loop tests [fft_radix2_512] returns.  The two
    arrays keep their lengths, and an array whose elements are 16-bit
    values before the transform holds 16-bit values after it: sums and
    differences wrap, nothing leaves the range of a sample. *)
Theorem fft_radix2_512_keeps_samples (data_real data_imag : list Z) (k : nat) :
  exists real' imag',
    fft_radix2_512 bd twiddle_real twiddle_imag (10 + k) data_real data_imag
    = Some (real', imag')
    /\ length real' = length data_real /\ length imag' = length data_imag
    /\ (Forall is_short data_real -> Forall is_short real')
    /\ (Forall is_short data_imag -> Forall is_short imag').
Proof.
  pose proof (fft_stages_design bd twiddle_real twiddle_imag 9 0%nat
                (data_real, data_imag) k eq_refl) as E.
  change (fft_stages bd twiddle_real twiddle_imag (10 + k) 512 1 256 256
            (data_real, data_imag) = Some (fold_left
              (design_stage bd twiddle_real twiddle_imag) (seq 0 9)
              (data_real, data_imag))) in E.
  destruct (fold_left _ _ _) as [real' imag'].
  exists real', imag'. split; [exact E|].
  pose proof (fft_stages_keeps
    (fun d => length (fst d) = length data_real
              /\ length (snd d) = length data_imag)
    bd twiddle_real twiddle_imag) as Hlen.
  pose proof (fft_stages_keeps (fun d => Forall is_short (fst d))
                bd twiddle_real twiddle_imag) as Hre.
  pose proof (fft_stages_keeps (fun d => Forall is_short (snd d))
                bd twiddle_real twiddle_imag) as Him.
  split; [|split; [|split]].
  - eapply (Hlen ltac:(intros WR WI w b [re im]; unfold fft_butterfly; simpl;
                       rewrite !length_wr; auto) _ _ _ _ _ _ _ E
                 (conj eq_refl eq_refl)).
  - eapply (Hlen ltac:(intros WR WI w b [re im]; unfold fft_butterfly; simpl;
                       rewrite !length_wr; auto) _ _ _ _ _ _ _ E
                 (conj eq_refl eq_refl)).
  - intros H. eapply (Hre ltac:(intros WR WI w b [re im]; unfold fft_butterfly;
                                simpl; intros Hd;
                                repeat apply Forall_wr; auto using to_short_range)
                        _ _ _ _ _ _ _ E H).
  - intros H. eapply (Him ltac:(intros WR WI w b [re im]; unfold fft_butterfly;
                                simpl; intros Hd;
                                repeat apply Forall_wr; auto using to_short_range)
                        _ _ _ _ _ _ _ E H).
Qed.

(** The transform of silence is silence: when every sample of both arrays
    is 0, every product, sum and difference is 0 and the arrays come back
    unchanged, whatever the twiddle factors. *)
Lemma fft_radix2_512_of_zeros (n m k : nat) :
  fft_radix2_512 bd twiddle_real twiddle_imag (10 + k) (replicate n 0) (replicate m 0)
  = Some (replicate n 0, replicate m 0).
Proof.
  pose proof (fft_stages_design bd twiddle_real twiddle_imag 9 0%nat
                (replicate n 0, replicate m 0) k eq_refl) as E.
  change (fft_stages bd twiddle_real twiddle_imag (10 + k) 512 1 256 256
            (replicate n 0, replicate m 0) = Some (fold_left
              (design_stage bd twiddle_real twiddle_imag) (seq 0 9)
              (replicate n 0, replicate m 0))) in E.
  unfold fft_radix2_512. cbv zeta. change (512 / 2) with 256.
  rewrite E. f_equal.
  refine (fft_stages_keeps (fun d => d = (replicate n 0, replicate m 0))
            bd twiddle_real twiddle_imag _ _ _ _ _ _ _ _ E eq_refl).
  intros WR WI w b d ->. unfold fft_butterfly, complex_mul, complex_add.
  rewrite !rd_zeros, !q15_mul16_zero. cbn [Z.sub Z.add Z.opp].
  rewrite ?to_int_zero. change (to_short 0) with 0. cbn [Z.add Z.opp].
  rewrite ?to_int_zero. change (to_short 0) with 0.
  rewrite !wr_zeros, !rd_zeros. cbn [Z.add].
  rewrite ?to_int_zero. change (to_short 0) with 0.
  rewrite !wr_zeros. reflexivity.
Qed.

End FFT_invariants.

(** ** The report *)

Section Report_properties.

Variable bd : board.
Variable print_short : Z -> bytes.
Variable print_double : double -> Z -> bytes.

Lemma report_sent_cons first_entry x rest :
  report_sent first_entry (x :: rest)
  = (if first_entry then [] else text ",") ++ x ++ report_sent false rest.
Proof.
  unfold report_sent at 1. f_equal.
  destruct rest; cbn [comma_separated report_sent];
    [rewrite app_nil_r|]; reflexivity.
Qed.

Lemma report_bins_fold freq_real freq_imag threshold bins :
  forall first_entry out,
  fold_left
    (fun st bin => report_bin bd print_short print_double freq_real freq_imag
                     threshold bin st)
    bins (first_entry, out)
  = let q := List.filter
               (fun bin => PrimFloat.leb threshold
                             (magnitude bd freq_real freq_imag bin))
               bins in
    (first_entry && match q with [] => true | _ => false end,
     out ++ report_sent first_entry
              (map (report_entry bd print_short print_double freq_real freq_imag) q)).
Proof.
  induction bins as [|bin bins IH]; intros first_entry out.
  - simpl. rewrite andb_true_r, app_nil_r. reflexivity.
  - cbn [fold_left List.filter].
    unfold report_bin at 2. fold (magnitude bd freq_real freq_imag bin).
    cbv zeta.
    destruct (PrimFloat.leb threshold (magnitude bd freq_real freq_imag bin)).
    +      destruct first_entry; cbv iota beta; rewrite IH; cbv zeta;
        cbn [map andb]; rewrite report_sent_cons; unfold report_entry at 2;
        rewrite <- ?app_assoc; reflexivity.
    + apply IH.
Qed.

Lemma rounded_frequency_in_band bin :
  10 <= bin <= 150 -> rounded_frequency bd bin = bin.
Proof.
  intros H.
  pose proof (forallb_iota
    (fun k => rounded_frequency bd (10 + k) =? 10 + k) 141
    ltac:(destruct bd; vm_compute; reflexivity) (bin - 10) ltac:(lia)) as E.
  cbv beta in E. apply Z.eqb_eq in E.
  replace (10 + (bin - 10)) with bin in E by lia. exact E.
Qed.

Lemma band_bounds : LowBin bd = 10 /\ 10 <= HighBin bd <= 150.
Proof. destruct bd; cbn; lia. Qed.

(** X2.  [report] visits the bins from [10 * 512 / 512] to
    [150 * 512 / 512] in ascending order, the bounds computed in the [int]
    of the board: 10 to 150 on the Due; 10 to 22 on the Mega, where
    [150 * 512] does not fit 16 bits.  When no bin of the band has a
    magnitude at or above the threshold it sends nothing and leaves
    [report_was_created] as it was; otherwise it sends one line, the
    qualifying bins in ascending order as comma-separated pairs of rounded
    frequency and magnitude (four decimals), ended by a line end, and sets
    [report_was_created].  In the band the rounded frequency is the bin
    number. *)
Theorem report_spec (freq_real freq_imag : list Z) (length : Z)
    (threshold : double) (report_was_created : bool) :
  Z.quot (to_int bd (LOWEST_FREQUENCY_REPORTED * NUMBER_OF_GEODATA_SAMPLES))
         SAMPLE_RATE = LowBin bd
  /\ Z.quot (to_int bd (HIGHEST_FREQUENCY_REPORTED * NUMBER_OF_GEODATA_SAMPLES))
            SAMPLE_RATE = HighBin bd
  /\ (LowBin bd, HighBin bd)
     = match bd with
       | ARDUINO_AVR_MEGA2560 => (10, 22)
       | ARDUINO_SAM_DUE => (10, 150)
       end
  /\ report bd print_short print_double freq_real freq_imag length threshold
       report_was_created
     = match qualifying_bins bd freq_real freq_imag threshold with
       | [] => ([], report_was_created)
       | q => (comma_separated
                 (map (report_entry bd print_short print_double
                         freq_real freq_imag) q)
               ++ crlf, true)
       end
  /\ (forall bin, bin ∈ qualifying_bins bd freq_real freq_imag threshold <->
        LowBin bd <= bin <= HighBin bd
        /\ PrimFloat.leb threshold (magnitude bd freq_real freq_imag bin) = true)
  /\ (forall bin, LowBin bd <= bin <= HighBin bd ->
        rounded_frequency bd bin = bin).
Proof.
  pose proof band_bounds as (Hlow & Hhigh).
  assert (El : Z.quot (to_int bd (LOWEST_FREQUENCY_REPORTED
                                  * NUMBER_OF_GEODATA_SAMPLES)) SAMPLE_RATE
               = LowBin bd) by (destruct bd; reflexivity).
  assert (Eh : Z.quot (to_int bd (HIGHEST_FREQUENCY_REPORTED
                                  * NUMBER_OF_GEODATA_SAMPLES)) SAMPLE_RATE
               = HighBin bd) by (destruct bd; reflexivity).
  split; [exact El|]. split; [exact Eh|].
  split; [destruct bd; reflexivity|]. split; [|split].
  - unfold report. cbv zeta. rewrite El, Eh.
    unfold for_loop.
    replace (HighBin bd + 1 - LowBin bd) with (HighBin bd - LowBin bd + 1) by lia.
    rewrite for_count_fold, report_bins_fold. cbv zeta.
    unfold qualifying_bins.
    destruct (List.filter _ (zrange _ _)) as [|b q]; reflexivity.
  - intros bin. unfold qualifying_bins.
    rewrite list_elem_of_In, filter_In, <- list_elem_of_In. split.
    + intros [Hb Hq]. apply elem_of_zrange in Hb. split; [lia|exact Hq].
    + intros [Hb Hq]. split; [|exact Hq].
      unfold zrange. apply list_elem_of_fmap.
      exists (Z.to_nat (bin - LowBin bd)).
      split; [lia|]. apply elem_of_seq. lia.
  - intros bin Hb. apply rounded_frequency_in_band. lia.
Qed.

End Report_properties.

(** ** Sampling *)

(** X22.  The blink of the report LED, away from the wrap of [millis()].
    Every call takes [report_was_created] down.  If it was up, the LED goes
    on and is due to go off 125 ms later; an LED that is on goes off at the
    first call after its time has passed and stays on until then; and
    without a report an LED that is off stays off. *)
Theorem report_blink_behaviour (now : Z) (k : blinker) :
  0 <= now -> now + 125 < 4294967296 ->
  let k' := report_blink REPORT_BLINK_ENABLED now k in
  report_was_created k' = false
  /\ (report_was_created k = true ->
      report_led k' = true /\ blink_led_on k' = true
      /\ blink_timestamp k' = now + 125)
  /\ (report_was_created k = false -> blink_led_on k = true ->
      blink_timestamp k < now ->
      report_led k' = false /\ blink_led_on k' = false)
  /\ (report_was_created k = false -> blink_led_on k = true ->
      now <= blink_timestamp k -> k' = k)
  /\ (report_was_created k = false -> blink_led_on k = false -> k' = k).
Proof.
  intros Hnow Hwrap. cbv zeta. unfold report_blink, REPORT_BLINK_ENABLED.
  destruct k as [created ts on led]. cbn [report_was_created blink_led_on
    blink_timestamp report_led].
  assert (Ets : to_ulong (now + 125) = now + 125)
    by (unfold to_ulong; apply Z.mod_small; lia).
  destruct created.
  - cbn [report_was_created blink_led_on blink_timestamp report_led].
    rewrite Ets.
    replace (now + 125 <? now) with false by (symmetry; apply Z.ltb_ge; lia).
    cbn [report_was_created blink_led_on blink_timestamp report_led].
    repeat split; try discriminate; reflexivity.
  - destruct on; cbn [report_was_created blink_led_on blink_timestamp report_led].
    + destruct (Z.ltb_spec ts now);
        cbn [report_was_created blink_led_on blink_timestamp report_led];
        repeat split; try discriminate; try reflexivity; intros; lia.
    + repeat split; try discriminate; reflexivity.
Qed.

Lemma report_blink_behaviour_witness :
  let k := Blinker true 0 false false in
  let k' := report_blink REPORT_BLINK_ENABLED 1000 k in
  report_was_created k' = false
  /\ (report_was_created k = true ->
      report_led k' = true /\ blink_led_on k' = true
      /\ blink_timestamp k' = 1000 + 125)
  /\ (report_was_created k = false -> blink_led_on k = true ->
      blink_timestamp k < 1000 ->
      report_led k' = false /\ blink_led_on k' = false)
  /\ (report_was_created k = false -> blink_led_on k = true ->
      1000 <= blink_timestamp k -> k' = k)
  /\ (report_was_created k = false -> blink_led_on k = false -> k' = k).
Proof.
  apply (report_blink_behaviour 1000 (Blinker true 0 false false)); lia.
Defined.

Lemma rd_wr_eq a i v : 0 <= i < Z.of_nat (length a) -> rd (wr a i v) i = v.
Proof.
  intros Hi. unfold rd, wr. rewrite list_lookup_insert_eq by lia. reflexivity.
Qed.

Lemma fft_butterfly_lengths bd WR WI wingspan b d0 d :
  same_lengths d0 d -> same_lengths d0 (fft_butterfly bd WR WI wingspan b d).
Proof.
  destruct d as [re im]. unfold same_lengths, fft_butterfly. simpl.
  rewrite !length_wr. auto.
Qed.

Lemma fft_stages_lengths bd tr ti fuel : forall len stage ppg w d d',
  fft_stages bd tr ti fuel len stage ppg w d = Some d' -> same_lengths d d'.
Proof.
  induction fuel as [|fuel IH]; intros len stage ppg w d d' H; [discriminate|].
  cbn [fft_stages] in H. destruct (stage <? len).
  - apply IH in H. destruct H as [H1 H2].
    assert (Hs : same_lengths d (for_loop 0 stage (fft_group bd tr ti ppg w) d)).
    { apply (for_count_keeps (same_lengths d)); [|split; reflexivity].
      intros g x Hx. unfold fft_group. cbv zeta.
      apply (for_count_keeps (same_lengths d)); [|exact Hx].
      intros j y Hy. apply fft_butterfly_lengths, Hy. }
    destruct Hs as [Hs1 Hs2]. split; congruence.
  - injection H as <-. split; reflexivity.
Qed.

Lemma length_sub_array off len a :
  0 <= off -> 0 <= len -> off + len <= Z.of_nat (length a) ->
  length (sub_array off len a) = Z.to_nat len.
Proof.
  intros Ho Hl H. unfold sub_array. rewrite length_take, length_drop. lia.
Qed.

Lemma length_put_array off part a :
  0 <= off -> off + Z.of_nat (length part) <= Z.of_nat (length a) ->
  length (put_array off part a) = length a.
Proof.
  intros Ho H. unfold put_array.
  rewrite !length_app, length_take, length_drop. lia.
Qed.

Section Sampling_properties.

Variable twiddle_real twiddle_imag : list Z.
Variable print_short : Z -> bytes.
Variable print_double : double -> Z -> bytes.
Variable atof : bytes -> double.
Variable cos : double -> double.

Local Abbreviation Run := (run twiddle_real twiddle_imag print_short print_double atof cos).
Local Abbreviation Step := (step twiddle_real twiddle_imag print_short print_double atof cos).
Local Abbreviation Loop_ := (loop twiddle_real twiddle_imag print_short print_double atof).
Local Abbreviation Analysis := (loop_analysis twiddle_real twiddle_imag print_short print_double).

Lemma ticks_snoc events e :
  ticks (events ++ [e])
  = ticks events + match e with Tick _ _ => 1 | _ => 0 end.
Proof.
  unfold ticks. rewrite List.filter_app, length_app.
  destruct e; simpl; lia.
Qed.

Lemma ticks_nonneg events : 0 <= ticks events.
Proof. unfold ticks. lia. Qed.

Lemma run_snoc b eeprom events e :
  Run b eeprom (events ++ [e]) = Step b (Run b eeprom events) e.
Proof. unfold run. rewrite fold_left_app. reflexivity. Qed.

(** [loop] leaves the protocol half out of the sampler. *)
Lemma loop_sampling b now m :
  sampling (Loop_ b now m) = sampling (Analysis b m).
Proof.
  unfold loop.
  destruct (loop_threshold _ _ _ _ _ _ _ _) as [[[t e] p] io]. reflexivity.
Qed.

Lemma loop_analysis_invariant b n m :
  sampler_invariant n (sampling m) ->
  sampler_invariant n (sampling (Analysis b m)).
Proof.
  intros H. pose proof H as (Hlen & Hidx & Hhw & Hptr & Hfull).
  unfold loop_analysis. cbv zeta.
  destruct (geodata_buffer_full (sampling m)) eqn:Ef; [|exact H].
  specialize (Hfull eq_refl).
  destruct (geodata_samples_real (sampling m)) as [off|] eqn:Ep;
    rewrite ?Ep in Hptr.
  - assert (Hoff : off = 0 \/ off = 512).
    { destruct (n <? 512); [discriminate|].
      destruct (n mod 1024 <? 512); injection Hptr as ->; auto. }
    set (real0 := sub_array off NUMBER_OF_GEODATA_SAMPLES
                    (geodata_samples (sampling m))).
    set (imag0 := replicate (Z.to_nat NUMBER_OF_GEODATA_SAMPLES) 0).
    assert (Hreal0 : length real0 = 512%nat).
    { unfold real0. rewrite length_sub_array;
        unfold NUMBER_OF_GEODATA_SAMPLES; try lia. }
    set (d1 := default (real0, imag0)
                 (fft_radix2_512 b twiddle_real twiddle_imag 10 real0 imag0)).
    assert (Hd1 : length (fst d1) = 512%nat).
    { unfold d1.
      destruct (fft_radix2_512 b twiddle_real twiddle_imag 10 real0 imag0)
        as [d|] eqn:E; [|exact Hreal0].
      unfold fft_radix2_512 in E. cbv zeta in E.
      pose proof (fft_stages_lengths _ _ _ _ _ _ _ _ _ _ E) as [E1 _].
      change (length (fst d) = 512%nat). rewrite E1. exact Hreal0. }
    destruct d1 as [real1 imag1]. simpl in Hd1.
    rewrite bit_reverse_complex_swaps. cbv zeta.
    destruct (report _ _ _ _ _ _ _ _) as [out created].
    unfold sampler_invariant.
    cbn [sampling geodata_samples geodata_samples_real
         isr_current_geodata_index isr_hamming_window_index
         geodata_buffer_full].
    split; [|split; [exact Hidx|split; [exact Hhw|split;
      [exact Hptr|discriminate]]]].
    rewrite length_put_array; [exact Hlen|lia|].
    rewrite length_apply_swaps, Hd1, Hlen. lia.
  - unfold sampler_invariant.
    cbn [sampling geodata_samples geodata_samples_real
         isr_current_geodata_index isr_hamming_window_index
         geodata_buffer_full].
    split; [exact Hlen|split; [exact Hidx|split; [exact Hhw|split;
      [exact Hptr|discriminate]]]].
Qed.


(** One timer interrupt takes the sampler from its state after [n]
    interrupts to its state after [n + 1]. *)
Lemma sampling_interrupt_invariant b raw now n s k :
  0 <= n -> sampler_invariant n s ->
  sampler_invariant (n + 1) (fst (sampling_interrupt cos b raw now s k)).
Proof.
  intros Hn (Hlen & Hidx & Hhw & Hptr & Hfull).
  unfold sampling_interrupt. cbv zeta. cbn [fst].
  match goal with |- context [wr _ _ ?v] => generalize v end. intros v.
  unfold NUMBER_OF_GEODATA_SAMPLES. rewrite Hidx, Hhw, Hptr.
  unfold sampler_invariant.
  destruct (Z.eqb_spec (n mod 1024 + 1) 512) as [E1|E1];
    [|destruct (Z.eqb_spec (n mod 1024 + 1) (512 * 2)) as [E2|E2]];
    cbn [geodata_samples geodata_samples_real isr_current_geodata_index
         isr_hamming_window_index geodata_buffer_full];
    rewrite length_wr.
  - split; [exact Hlen|]. split; [zmod|]. split; [zmod|].
    split; [|intros _; zmod].
    ztests; try reflexivity; exfalso; zmod.
  - split; [exact Hlen|]. split; [zmod|]. split; [zmod|].
    split; [|intros _; zmod].
    ztests; try reflexivity; exfalso; zmod.
  - split; [exact Hlen|]. split; [zmod|]. split; [zmod|].
    split; [|intros Hf; specialize (Hfull Hf); lia].
    ztests; try reflexivity; exfalso; zmod.
Qed.

Lemma setup_invariant b eeprom :
  sampler_invariant 0 (sampling (setup b (power_on eeprom))).
Proof.
  unfold sampler_invariant. cbn. repeat split; try reflexivity. discriminate.
Qed.

(** The sampler invariant holds after every sequence of events. *)
Lemma run_invariant b eeprom events :
  sampler_invariant (ticks events) (sampling (Run b eeprom events)).
Proof.
  induction events as [|e events IH] using rev_ind.
  - apply setup_invariant.
  - rewrite run_snoc, ticks_snoc. destruct e as [raw now|now|c].
    + unfold step.
      pose proof (sampling_interrupt_invariant b raw now (ticks events)
                    (sampling (Run b eeprom events))
                    (blinking (Run b eeprom events))
                    (ticks_nonneg events) IH) as H.
      destruct (sampling_interrupt _ _ _ _ _ _) as [s k]. exact H.
    + rewrite Z.add_0_r. cbn [step]. rewrite loop_sampling.
      apply loop_analysis_invariant, IH.
    + rewrite Z.add_0_r. exact IH.
Qed.


Lemma step_tick_sampling b raw now m :
  sampling (Step b m (Tick raw now))
  = fst (sampling_interrupt cos b raw now (sampling m) (blinking m)).
Proof.
  cbn [step]. destruct (sampling_interrupt _ _ _ _ _ _) as [s k]. reflexivity.
Qed.

(** C6.  After any sequence of events with [n] timer interrupts the fill
    index is [n mod 1024].  The next interrupt raises the semaphore exactly
    when it is interrupt number 512, 1024, 1536, ...: it then points
    [geodata_samples_real] at the half it has just filled (offset 0 when the
    fill index reaches 512, offset 512 when it reaches 1024 and wraps to 0);
    any other interrupt leaves the semaphore and the pointer alone.  The
    pointer never points at the half that takes the next sample, and the
    semaphore is never up while the pointer is null. *)
Theorem sampling_handoff (b : board) (eeprom : list Z) (events : list event)
    (raw now : Z) :
  let m := Run b eeprom events in
  let n := ticks events in
  let m' := Step b m (Tick raw now) in
  isr_current_geodata_index (sampling m) = n mod 1024
  /\ geodata_buffer_full (sampling m')
     = (geodata_buffer_full (sampling m) || ((n + 1) mod 512 =? 0))
  /\ geodata_samples_real (sampling m')
     = (if (n + 1) mod 1024 =? 512 then Some 0
        else if (n + 1) mod 1024 =? 0 then Some 512
        else geodata_samples_real (sampling m))
  /\ isr_current_geodata_index (sampling m') = (n + 1) mod 1024
  /\ (forall off, geodata_samples_real (sampling m) = Some off ->
        ~ (off <= isr_current_geodata_index (sampling m) < off + 512))
  /\ (geodata_buffer_full (sampling m) = true ->
        geodata_samples_real (sampling m) <> None).
Proof.
  cbv zeta.
  pose proof (run_invariant b eeprom events) as (Hlen & Hidx & Hhw & Hptr & Hfull).
  pose proof (ticks_nonneg events) as Hn.
  split; [exact Hidx|].
  rewrite step_tick_sampling.
  unfold sampling_interrupt. cbv zeta. cbn [fst].
  match goal with |- context [wr _ _ ?v] => generalize v end. intros v.
  unfold NUMBER_OF_GEODATA_SAMPLES. rewrite Hidx.
  split; [|split; [|split; [|split]]].
  - destruct (Z.eqb_spec (ticks events mod 1024 + 1) 512) as [E1|E1];
      [|destruct (Z.eqb_spec (ticks events mod 1024 + 1) (512 * 2)) as [E2|E2]];
      cbn [geodata_buffer_full].
    + replace ((ticks events + 1) mod 512 =? 0) with true
        by (symmetry; apply Z.eqb_eq; zmod).
      rewrite orb_true_r. reflexivity.
    + replace ((ticks events + 1) mod 512 =? 0) with true
        by (symmetry; apply Z.eqb_eq; zmod).
      rewrite orb_true_r. reflexivity.
    + replace ((ticks events + 1) mod 512 =? 0) with false
        by (symmetry; apply Z.eqb_neq; zmod).
      rewrite orb_false_r. reflexivity.
  - destruct (Z.eqb_spec (ticks events mod 1024 + 1) 512) as [E1|E1];
      [|destruct (Z.eqb_spec (ticks events mod 1024 + 1) (512 * 2)) as [E2|E2]];
      cbn [geodata_samples_real];
      ztests; try reflexivity; exfalso; zmod.
  - destruct (Z.eqb_spec (ticks events mod 1024 + 1) 512) as [E1|E1];
      [|destruct (Z.eqb_spec (ticks events mod 1024 + 1) (512 * 2)) as [E2|E2]];
      cbn [isr_current_geodata_index]; zmod.
  - intros off Hoff. rewrite Hptr in Hoff.
    destruct (Z.ltb_spec (ticks events) 512); [discriminate|].
    destruct (Z.ltb_spec (ticks events mod 1024) 512);
      injection Hoff as <-; zmod.
  - intros Hf. specialize (Hfull Hf). rewrite Hptr.
    destruct (Z.ltb_spec (ticks events) 512); [lia|discriminate].
Qed.

Lemma adc_resolution_cases b : adc_resolution b = 1024 \/ adc_resolution b = 4096.
Proof. destruct b; auto. Qed.

(** The factor of the cosine.  [1.0 - 0.54] is not the [double] nearest to
    0.46 but its neighbour below, on either board. *)
Lemma hamming_beta :
  double_sub ARDUINO_SAM_DUE 1.0 (round_double ARDUINO_SAM_DUE 0.54)
  = 0.45999999999999996%float
  /\ PrimFloat.next_up 0.45999999999999996 = 0.46%float
  /\ double_sub ARDUINO_AVR_MEGA2560 1.0 (round_double ARDUINO_AVR_MEGA2560 0.54)
     = 0x1.d70a3cp-2%float
  /\ round_double ARDUINO_AVR_MEGA2560 0.46 = 0x1.d70a3ep-2%float.
Proof. repeat split; reflexivity. Qed.

(** C8.  The interrupt that follows [n] earlier ones stores its sample at
    index [n mod 1024] with window position [n mod 512]: the reading minus
    half the full scale, times the Hamming coefficient of that position,
    times [8192 / FullScale], cut to an integer and to 16 bits, all in the
    floating point of the board (binary32 on the Mega, binary64 with a
    binary32 coefficient on the Due; the factor 0.46 is formed as
    [1.0 - 0.54]).  The window position then is [(n + 1) mod 512]: one
    more, or 0 when the frame is complete. *)
Theorem sampling_stores_windowed_sample (b : board) (eeprom : list Z)
    (events : list event) (raw now : Z) :
  0 <= raw < adc_resolution b ->
  let m := Run b eeprom events in
  let n := ticks events in
  let m' := Step b m (Tick raw now) in
  isr_hamming_window_index (sampling m) = n mod 512
  /\ rd (geodata_samples (sampling m')) (n mod 1024)
     = design_sample cos b (adc_resolution b) (n mod 512) raw
  /\ isr_hamming_window_index (sampling m') = (n + 1) mod 512.
Proof.
  intros Hraw. cbv zeta.
  pose proof (run_invariant b eeprom events) as Hinv.
  pose proof (ticks_nonneg events) as Hn.
  pose proof (sampling_interrupt_invariant b raw now _ _
                (blinking (Run b eeprom events)) Hn Hinv) as (_ & _ & Hhw' & _).
  destruct Hinv as (Hlen & Hidx & Hhw & Hptr & Hfull).
  split; [exact Hhw|]. split; [|rewrite step_tick_sampling; exact Hhw'].
  rewrite step_tick_sampling.
  assert (Hv : to_short (to_int b (raw - Z.shiftr (adc_resolution b) 1))
               = raw - adc_resolution b / 2).
  { rewrite to_short_to_int.
    rewrite Z.shiftr_div_pow2 by lia. change (2 ^ 1) with 2.
    apply to_short_id. unfold is_short.
    destruct (adc_resolution_cases b) as [E|E]; rewrite E in *;
      change (1024 / 2) with 512; change (4096 / 2) with 2048; lia. }
  unfold sampling_interrupt. cbv zeta. cbn [fst].
  rewrite Hv, Hidx, Hhw.
  assert (Hi : 0 <= ticks events mod 1024 < Z.of_nat (length (geodata_samples
                 (sampling (Run b eeprom events))))) by (rewrite Hlen; zmod).
  unfold NUMBER_OF_GEODATA_SAMPLES.
  destruct (Z.eqb_spec (ticks events mod 1024 + 1) 512) as [E1|E1];
    [|destruct (Z.eqb_spec (ticks events mod 1024 + 1) (512 * 2)) as [E2|E2]];
    cbn [geodata_samples]; rewrite rd_wr_eq by exact Hi; reflexivity.
Qed.

End Sampling_properties.

Lemma sampling_stores_windowed_sample_witness :
  let m := run [] [] print_integer print_fixed atof_decimal cos_series
             ARDUINO_AVR_MEGA2560 [] [Tick 600 1; Loop 2; Tick 700 3] in
  let n := ticks [Tick 600 1; Loop 2; Tick 700 3] in
  let m' := step [] [] print_integer print_fixed atof_decimal cos_series
              ARDUINO_AVR_MEGA2560 m (Tick 612 5) in
  isr_hamming_window_index (sampling m) = n mod 512
  /\ rd (geodata_samples (sampling m')) (n mod 1024)
     = design_sample cos_series ARDUINO_AVR_MEGA2560
         (adc_resolution ARDUINO_AVR_MEGA2560) (n mod 512) 612
  /\ isr_hamming_window_index (sampling m') = (n + 1) mod 512.
Proof.
  apply (sampling_stores_windowed_sample [] [] print_integer print_fixed
           atof_decimal cos_series ARDUINO_AVR_MEGA2560 []
           [Tick 600 1; Loop 2; Tick 700 3] 612 5).
  simpl. lia.
Defined.

(** ** Comparisons of doubles *)

Lemma SFcompare_antisym x y c :
  SFcompare x y = Some c -> SFcompare y x = Some (CompOpp c).
Proof.
  destruct x as [sx|sx| |sx mx ex], y as [sy|sy| |sy my ey];
    cbn [SFcompare]; try discriminate;
    try (intros H; injection H as <-;
         repeat match goal with s : bool |- _ => destruct s end; reflexivity).
  intros H. injection H as <-. f_equal.
  pose proof (Pos.compare_cont_antisym mx my Eq) as A. cbn [CompOpp] in A.
  destruct sx, sy; try reflexivity;
    rewrite (Z.compare_antisym ex ey);
    destruct (ex ?= ey); cbn [CompOpp]; rewrite <- ?A, ?CompOpp_involutive;
    reflexivity.
Qed.

(** A value above 0.0 that is not at or above 1.0 lies in the unit
    interval: being above 0.0 it is not a NaN, so it compares with 1.0. *)
Lemma positive_below_one_in_unit (v : double) :
  PrimFloat.ltb 0 v = true -> PrimFloat.leb 1 v = false -> in_unit v = true.
Proof.
  unfold in_unit. rewrite !FloatAxioms.ltb_spec, !FloatAxioms.leb_spec.
  unfold SFltb, SFleb. intros H0 H1.
  destruct (SFcompare (Prim2SF 0) (Prim2SF v)) as [[| |]|] eqn:E0;
    try discriminate H0.
  cbn [andb].
  destruct (SFcompare (Prim2SF 1) (Prim2SF v)) as [c|] eqn:E1.
  - rewrite (SFcompare_antisym _ _ _ E1).
    destruct c; try discriminate H1. reflexivity.
  - exfalso. revert E0 E1.
    change (Prim2SF 0) with (S754_zero false).
    change (Prim2SF 1) with (S754_finite false 4503599627370496 (-52)).
    destruct (Prim2SF v) as [s|s| |s m e]; cbn [SFcompare]; discriminate.
Qed.

(** A value equal to 0.0 (plus or minus zero) is not below 0.0, not above
    it and not at or above 1.0. *)
Lemma zero_comparisons (v : double) :
  PrimFloat.eqb v 0 = true ->
  PrimFloat.ltb v 0 = false /\ PrimFloat.ltb 0 v = false
  /\ PrimFloat.leb 1 v = false.
Proof.
  rewrite FloatAxioms.eqb_spec, !FloatAxioms.ltb_spec, FloatAxioms.leb_spec.
  unfold SFeqb, SFltb, SFleb.
  change (Prim2SF 0) with (S754_zero false).
  change (Prim2SF 1) with (S754_finite false 4503599627370496 (-52)).
  destruct (Prim2SF v) as [s|s| |s m e]; cbn [SFcompare];
    try discriminate; try (destruct s; discriminate).
  auto.
Qed.

(** No comparison with a NaN holds. *)
Lemma nan_leb (x : double) : PrimFloat.leb nan x = false.
Proof.
  rewrite FloatAxioms.leb_spec. unfold SFleb.
  change (Prim2SF nan) with S754_nan. reflexivity.
Qed.

(** Nothing above 0.0 is at or below it. *)
Lemma positive_not_leb_zero (t : double) :
  PrimFloat.ltb 0 t = true -> PrimFloat.leb t 0 = false.
Proof.
  rewrite FloatAxioms.ltb_spec, FloatAxioms.leb_spec. unfold SFltb, SFleb.
  destruct (SFcompare (Prim2SF 0) (Prim2SF t)) as [[| |]|] eqn:E;
    try discriminate.
  intros _. rewrite (SFcompare_antisym _ _ _ E). reflexivity.
Qed.

(** ** The analysis of a frame *)

Lemma swap_array_zeros i j n : swap_array i j (replicate n 0) = replicate n 0.
Proof.
  unfold swap_array. cbv zeta. rewrite !rd_zeros, !wr_zeros. reflexivity.
Qed.

Lemma apply_swaps_zeros sw n : apply_swaps sw (replicate n 0) = replicate n 0.
Proof.
  induction sw as [|[i j] sw IH]; [reflexivity|].
  cbn [apply_swaps]. rewrite swap_array_zeros. exact IH.
Qed.

Lemma magnitude_zeros bd n m bin :
  magnitude bd (replicate n 0) (replicate m 0) bin = 0%float.
Proof. unfold magnitude. rewrite !rd_zeros. destruct bd; reflexivity. Qed.

Section Analysis_properties.

Variable bd : board.
Variable twiddle_real twiddle_imag : list Z.
Variable print_short : Z -> bytes.
Variable print_double : double -> Z -> bytes.

(** X21.  Silence is not reported.  A frame of zeros goes through the
    transform and the bit reversal as zeros, whatever the twiddle factors,
    and with a threshold above 0.0 [report] then sends nothing and leaves
    [report_was_created] alone. *)
Theorem silence_is_not_reported (n m k : nat) (threshold : double)
    (len : Z) (created : bool) :
  PrimFloat.ltb 0 threshold = true ->
  exists real imag,
    fft_radix2_512 bd twiddle_real twiddle_imag (10 + k)
      (replicate n 0) (replicate m 0) = Some (real, imag)
    /\ bit_reverse_complex real imag NUMBER_OF_GEODATA_SAMPLES
       = (replicate n 0, replicate m 0)
    /\ report bd print_short print_double (replicate n 0) (replicate m 0) len
         threshold created = ([], created).
Proof.
  intros Ht. exists (replicate n 0), (replicate m 0).
  split; [apply fft_radix2_512_of_zeros|]. split.
  - rewrite bit_reverse_complex_swaps. cbv zeta.
    rewrite !apply_swaps_zeros. reflexivity.
  - unfold report. cbv zeta. unfold for_loop.
    rewrite for_count_fold, report_bins_fold. cbv zeta.
    replace (List.filter _ _) with (@nil Z); [reflexivity|].
    symmetry.
    match goal with |- List.filter _ ?l = _ => generalize l end.
    intros l. induction l as [|x l IH]; [reflexivity|].
    cbn [List.filter].
    rewrite magnitude_zeros, (positive_not_leb_zero threshold Ht). exact IH.
Qed.


(** *** The frame

    [loop] hands the transform and the bit reversal a pointer into the
    double buffer.  Both work on the 512 elements from the pointer on. *)

Lemma drop_wr n a i v :
  0 <= i < Z.of_nat n -> drop n (wr a i v) = drop n a.
Proof. intros Hi. unfold wr. apply drop_insert_lt. lia. Qed.

Lemma drop_swap_array n i j a :
  swap_in_range (Z.of_nat n) (i, j) = true ->
  drop n (swap_array i j a) = drop n a.
Proof.
  unfold swap_in_range. cbn [fst snd]. intros H.
  apply andb_prop in H as [H Hj2]. apply andb_prop in H as [H Hj1].
  apply andb_prop in H as [Hi1 Hi2].
  apply Z.leb_le in Hi1, Hj1. apply Z.ltb_lt in Hi2, Hj2.
  unfold swap_array. cbv zeta. rewrite !drop_wr by lia. reflexivity.
Qed.

Lemma drop_apply_swaps n sw : forall a,
  forallb (swap_in_range (Z.of_nat n)) sw = true ->
  drop n (apply_swaps sw a) = drop n a.
Proof.
  induction sw as [|[i j] sw IH]; intros a H; [reflexivity|].
  cbn [forallb] in H. apply andb_prop in H as [Hij H].
  cbn [apply_swaps]. rewrite IH by exact H.
  apply drop_swap_array, Hij.
Qed.

Lemma fold_left_keeps {A B : Type} (P : A -> Prop) (f : A -> B -> A) l :
  (forall x a, x ∈ l -> P a -> P (f a x)) ->
  forall a, P a -> P (fold_left f l a).
Proof.
  induction l as [|x l IH]; intros Hf a Ha; [exact Ha|].
  cbn [fold_left]. apply IH.
  - intros y c Hy. apply Hf. right. exact Hy.
  - apply Hf; [left|exact Ha].
Qed.

(** The elements from 512 on are those of [d0]. *)
Definition beyond_frame (d0 d : list Z * list Z) : Prop :=
  drop 512 (fst d) = drop 512 (fst d0) /\ drop 512 (snd d) = drop 512 (snd d0).

Lemma design_butterfly_frame W wingspan b d0 d :
  0 <= b -> 0 <= wingspan -> b + wingspan < 512 ->
  beyond_frame d0 d -> beyond_frame d0 (design_butterfly bd W wingspan b d).
Proof.
  intros Hb Hw Hlt [H1 H2]. unfold beyond_frame, design_butterfly.
  cbv zeta. cbn [fst snd].
  rewrite !(drop_wr 512) by lia. split; assumption.
Qed.

Lemma design_stage_frame d0 d s :
  (s <= 8)%nat -> beyond_frame d0 d ->
  beyond_frame d0 (design_stage bd twiddle_real twiddle_imag d s).
Proof.
  intros Hs Hd. destruct (stage_shape s Hs) as (Hw & Hprod & Hpos).
  unfold design_stage. cbv zeta.
  apply (fold_left_keeps (beyond_frame d0)); [|exact Hd].
  intros g x Hg Hx. apply elem_of_zrange in Hg.
  apply (fold_left_keeps (beyond_frame d0)); [|exact Hx].
  intros b y Hb Hy. apply elem_of_zrange in Hb.
  apply design_butterfly_frame; [nia|lia|nia|exact Hy].
Qed.

(** X14.  The transform and the bit reversal stay inside the frame.  Handed
    arrays that go on beyond the 512 samples of a frame, as the first half
    of the double buffer does, they return (given fuel for ten loop tests)
    and leave every element from index 512 on as it was: no butterfly and
    no swap reaches into the half that is taking new samples. *)
Theorem analysis_stays_in_frame (data_real data_imag : list Z) (k : nat) :
  exists real imag,
    fft_radix2_512 bd twiddle_real twiddle_imag (10 + k) data_real data_imag
    = Some (real, imag)
    /\ drop 512 real = drop 512 data_real
    /\ drop 512 imag = drop 512 data_imag
    /\ drop 512 (fst (bit_reverse_complex real imag NUMBER_OF_GEODATA_SAMPLES))
       = drop 512 data_real
    /\ drop 512 (snd (bit_reverse_complex real imag NUMBER_OF_GEODATA_SAMPLES))
       = drop 512 data_imag.
Proof.
  pose proof (fft_stages_design bd twiddle_real twiddle_imag 9 0%nat
                (data_real, data_imag) k eq_refl) as E.
  assert (F : beyond_frame (data_real, data_imag)
                (fold_left (design_stage bd twiddle_real twiddle_imag) (seq 0 9)
                   (data_real, data_imag))).
  { apply (fold_left_keeps (beyond_frame (data_real, data_imag)));
      [|split; reflexivity].
    intros s d Hs Hd. apply elem_of_seq in Hs.
    apply design_stage_frame; [lia|exact Hd]. }
  destruct (fold_left _ _ _) as [real imag]. destruct F as [F1 F2].
  cbn [fst snd] in F1, F2.
  exists real, imag. split; [exact E|]. split; [exact F1|]. split; [exact F2|].
  rewrite bit_reverse_complex_swaps. cbv zeta. cbn [fst snd].
  change (bit_reverse_swaps NUMBER_OF_GEODATA_SAMPLES
            (Z.to_nat (Z.shiftr NUMBER_OF_GEODATA_SAMPLES 2))
            (to_ulong (Z.shiftr NUMBER_OF_GEODATA_SAMPLES 1)) 1) with swaps_512.
  rewrite !(drop_apply_swaps 512) by exact swaps_512_in_range.
  split; assumption.
Qed.

End Analysis_properties.

Lemma silence_is_not_reported_witness :
  exists real imag,
    fft_radix2_512 ARDUINO_AVR_MEGA2560 [] [] (10 + 0)
      (replicate 512 0) (replicate 512 0)
    = Some (real, imag)
    /\ bit_reverse_complex real imag NUMBER_OF_GEODATA_SAMPLES
       = (replicate 512 0, replicate 512 0)
    /\ report ARDUINO_AVR_MEGA2560 print_integer print_fixed
         (replicate 512 0) (replicate 512 0) 257 0.5%float false = ([], false).
Proof.
  apply (silence_is_not_reported ARDUINO_AVR_MEGA2560 [] [] print_integer print_fixed
           512 512 0 0.5%float 257 false).
  reflexivity.
Defined.

(** ** The threshold protocol *)

Lemma drain_nil rx : drain rx = [].
Proof. induction rx as [|c rx IH]; [reflexivity|exact IH]. Qed.

Section Protocol_properties.

Variable atof : bytes -> double.
Variable print_double : double -> Z -> bytes.

Local Abbreviation Get := (get_new_threshold atof print_double).

(** X5.  Every call of [get_new_threshold] ends in one of three ways.  It
    sends nothing and returns -1.0, leaving the receive buffer alone or
    taking one numeric byte from it.  Or it sends exactly one error line
    (TIMEOUT, OVERFLOW, NON-NUMERIC or FLUSH), returns -1.0, empties the
    receive buffer and sets the position back to 0.  Or it sends one OK line
    with the value read, returns that value, which is neither below 0.0 nor
    at or above 1.0, empties the receive buffer and sets the position back
    to 0. *)
Theorem get_new_threshold_outcomes (now : Z) (p : protocol) (io : serial) :
  let '(threshold, p', io') := Get now p io in
  (serial_tx io' = serial_tx io
   /\ threshold = (-1)%float
   /\ (serial_rx io' = serial_rx io \/ exists c, serial_rx io = c :: serial_rx io'))
  \/ (exists message,
        In message ["TIMEOUT"; "OVERFLOW"; "NON-NUMERIC"; "FLUSH"]%string
        /\ serial_tx io' = serial_tx io ++ reply_bytes print_double (Error message)
        /\ threshold = (-1)%float
        /\ serial_rx io' = []
        /\ threshold_string_pos p' = 0)
  \/ (serial_tx io' = serial_tx io ++ reply_bytes print_double (Ok threshold)
      /\ PrimFloat.ltb threshold 0 = false
      /\ PrimFloat.leb 1 threshold = false
      /\ serial_rx io' = []
      /\ threshold_string_pos p' = 0).
Proof.
  unfold get_new_threshold. cbv zeta.
  destruct (_ && _).
  { right; left. exists "TIMEOUT"%string.
    cbn [serial_tx serial_rx flush_serial_input serial_println
         threshold_string_pos reply_bytes].
    rewrite drain_nil. repeat split; auto. simpl; auto. }
  destruct (serial_rx io) as [|c rx] eqn:Erx.
  { left. rewrite Erx. repeat split; auto. }
  destruct (threshold_string_pos p <? sizeof_threshold_string - 1).
  2:{ right; left. exists "FLUSH"%string.
      cbn [serial_tx serial_rx flush_serial_input serial_println
           threshold_string_pos reply_bytes].
      rewrite drain_nil. repeat split; auto. simpl; auto. }
  destruct (_ || _).
  { destruct (PrimFloat.ltb _ 0) eqn:E0; cbn [orb].
    - right; left. exists "OVERFLOW"%string.
      cbn [serial_tx serial_rx flush_serial_input serial_println
           threshold_string_pos reply_bytes].
      rewrite drain_nil. repeat split; auto. simpl; auto.
    - destruct (PrimFloat.leb 1 _) eqn:E1.
      + right; left. exists "OVERFLOW"%string.
        cbn [serial_tx serial_rx flush_serial_input serial_println
             threshold_string_pos reply_bytes].
        rewrite drain_nil. repeat split; auto. simpl; auto.
      + right; right.
        cbn [serial_tx serial_rx flush_serial_input serial_println serial_print
             threshold_string_pos reply_bytes].
        rewrite drain_nil, <- app_assoc. repeat split; auto. }
  destruct (_ || _).
  { left. cbn [serial_tx serial_rx]. repeat split; auto. right. exists c. reflexivity. }
  right; left. exists "NON-NUMERIC"%string.
  cbn [serial_tx serial_rx flush_serial_input serial_println
       threshold_string_pos reply_bytes].
  rewrite drain_nil. repeat split; auto. simpl; auto 6.
Qed.


(** X6.  With 19 bytes accumulated the next byte is not even looked at:
    whatever it is, a terminator included, the call sends E:FLUSH, drops the
    partial input and all pending bytes and returns -1.0.  (The deadline is
    supposed not to have passed; then E:TIMEOUT comes first.) *)
Theorem get_new_threshold_buffer_full (now : Z) (p : protocol) (io : serial)
    (c : ascii) (rest : bytes) :
  threshold_string_pos p = 19 ->
  timed_out p now = false ->
  serial_rx io = c :: rest ->
  Get now p io
  = ((-1)%float,
     Protocol (threshold_string p) 0 (timestamp p),
     Serial [] (serial_tx io ++ text "E:FLUSH" ++ crlf)).
Proof.
  intros Hpos Hto Hrx. unfold get_new_threshold. cbv zeta.
  unfold timed_out in Hto. rewrite Hto, Hrx, Hpos.
  change (19 <? sizeof_threshold_string - 1) with false. cbv iota.
  unfold flush_serial_input, serial_println. cbn [serial_rx serial_tx].
  rewrite drain_nil. reflexivity.
Qed.

(** X7.  A partial input whose deadline has passed is dropped by the next
    call, whatever waits in the receive buffer: E:TIMEOUT is sent, the
    buffer is emptied and -1.0 returned.  The deadline is [timestamp + 250]
    in 32-bit unsigned arithmetic, so an input that started in the last
    250 ms before [millis()] wraps around has a deadline near 0 and times
    out at once. *)
Theorem get_new_threshold_timeout (now : Z) (p : protocol) (io : serial) :
  0 < threshold_string_pos p ->
  0 <= timestamp p < 4294967296 ->
  (timestamp p + 250 < now
   \/ (4294967296 - 250 <= timestamp p /\ timestamp p <= now)) ->
  Get now p io
  = ((-1)%float,
     Protocol (threshold_string p) 0 (timestamp p),
     Serial [] (serial_tx io ++ text "E:TIMEOUT" ++ crlf)).
Proof.
  intros Hpos Hts Hnow. unfold get_new_threshold. cbv zeta.
  assert (Hto : (0 <? threshold_string_pos p)
                && (to_ulong (timestamp p + 250) <? now) = true).
  { apply andb_true_intro. split; [apply Z.ltb_lt; exact Hpos|].
    apply Z.ltb_lt. unfold to_ulong. zmod. }
  rewrite Hto. unfold flush_serial_input, serial_println.
  cbn [serial_rx serial_tx]. rewrite drain_nil. reflexivity.
Qed.

Lemma numeric_not_terminator c : is_numeric c = true -> is_terminator c = false.
Proof.
  intros Hc. destruct (is_terminator c) eqn:E; [|reflexivity].
  unfold is_terminator in E. apply orb_prop in E as [E|E];
    apply Ascii.eqb_eq in E; subst c; discriminate Hc.
Qed.

Lemma numeric_not_nul c : is_numeric c = true -> Ascii.eqb c NUL = false.
Proof.
  intros Hc. destruct (Ascii.eqb c NUL) eqn:E; [|reflexivity].
  apply Ascii.eqb_eq in E. subst c. discriminate Hc.
Qed.

Lemma c_string_prefix pre rest :
  forallb is_numeric pre = true -> c_string (pre ++ NUL :: rest) = pre.
Proof.
  induction pre as [|c pre IH]; intros H; [reflexivity|].
  cbn [forallb] in H. apply andb_prop in H as [Hc H].
  cbn [app c_string]. rewrite (numeric_not_nul c Hc), IH by exact H.
  reflexivity.
Qed.

(** A call that finds a terminator with room left in the buffer. *)
Lemma get_new_threshold_terminator now p io term rest :
  timed_out p now = false ->
  threshold_string_pos p < 19 ->
  serial_rx io = term :: rest ->
  is_terminator term = true ->
  Get now p io
  = (let buf := <[Z.to_nat (threshold_string_pos p) := NUL]> (threshold_string p) in
     let v := atof (c_string buf) in
     let ts := if threshold_string_pos p =? 0 then now else timestamp p in
     if PrimFloat.ltb v 0 || PrimFloat.leb 1 v
     then ((-1)%float, Protocol buf 0 ts,
           Serial [] (serial_tx io ++ reply_bytes print_double (Error "OVERFLOW")))
     else (v, Protocol buf 0 ts,
           Serial [] (serial_tx io ++ reply_bytes print_double (Ok v)))).
Proof.
  intros Hto Hpos Hrx Hterm. unfold get_new_threshold. cbv zeta.
  unfold timed_out in Hto. rewrite Hto, Hrx.
  replace (threshold_string_pos p <? sizeof_threshold_string - 1) with true
    by (symmetry; apply Z.ltb_lt; unfold sizeof_threshold_string; lia).
  unfold is_terminator in Hterm. rewrite Hterm.
  destruct (_ || _);
    unfold flush_serial_input, serial_println, serial_print, reply_bytes;
    cbn [serial_rx serial_tx]; rewrite drain_nil, <- ?app_assoc; reflexivity.
Qed.

(** A call that finds a digit or a dot with room left in the buffer. *)
Lemma get_new_threshold_numeric now p io c rest :
  timed_out p now = false ->
  threshold_string_pos p < 19 ->
  serial_rx io = c :: rest ->
  is_numeric c = true ->
  Get now p io
  = ((-1)%float,
     Protocol (<[Z.to_nat (threshold_string_pos p) := c]> (threshold_string p))
       (threshold_string_pos p + 1)
       (if threshold_string_pos p =? 0 then now else timestamp p),
     Serial rest (serial_tx io)).
Proof.
  intros Hto Hpos Hrx Hc. unfold get_new_threshold. cbv zeta.
  unfold timed_out in Hto. rewrite Hto, Hrx.
  replace (threshold_string_pos p <? sizeof_threshold_string - 1) with true
    by (symmetry; apply Z.ltb_lt; unfold sizeof_threshold_string; lia).
  pose proof (numeric_not_terminator c Hc) as Hnt.
  unfold is_terminator in Hnt. rewrite Hnt.
  unfold is_numeric in Hc. rewrite Hc. reflexivity.
Qed.

Section Line.

Variable term : ascii.
Variable rest : bytes.
Hypothesis term_is_terminator : is_terminator term = true.

(** The calls that take in the rest of a line, [payload] and its
    terminator, when [pre] has been accumulated already. *)
Lemma get_new_threshold_calls_line payload :
  forall pre nows p io last t0,
  threshold_string_pos p = Z.of_nat (length pre) ->
  take (length pre) (threshold_string p) = pre ->
  forallb is_numeric pre = true ->
  forallb is_numeric payload = true ->
  length (threshold_string p) = 20%nat ->
  (length pre + length payload <= 18)%nat ->
  serial_rx io = payload ++ term :: rest ->
  length nows = S (length payload) ->
  t0 = (if threshold_string_pos p =? 0 then default 0 (head nows)
        else timestamp p) ->
  Forall (fun now => (to_ulong (t0 + 250) <? now) = false) nows ->
  exists buf,
    get_new_threshold_calls atof print_double nows last p io
    = (let v := atof (pre ++ payload) in
       if PrimFloat.ltb v 0 || PrimFloat.leb 1 v
       then ((-1)%float, Protocol buf 0 t0,
             Serial [] (serial_tx io ++ reply_bytes print_double (Error "OVERFLOW")))
       else (v, Protocol buf 0 t0,
             Serial [] (serial_tx io ++ reply_bytes print_double (Ok v)))).
Proof.
  induction payload as [|c payload IH];
    intros pre nows p io last t0 Hpos Hpre Hnum Hpay Hlen Hroom Hrx Hnows Ht0 Hdead.
  - destruct nows as [|now [|? ?]]; try discriminate Hnows.
    simpl (default _ _) in Ht0. apply Forall_inv in Hdead.
    assert (Hto : timed_out p now = false).
    { unfold timed_out. destruct (Z.eqb_spec (threshold_string_pos p) 0) as [E|E].
      - rewrite E. reflexivity.
      - subst t0. rewrite Hdead. apply andb_false_r. }
    cbn [get_new_threshold_calls].
    rewrite (get_new_threshold_terminator now p io term rest Hto ltac:(lia) Hrx
               term_is_terminator).
    cbv zeta. rewrite <- Ht0.
    rewrite insert_take_drop by lia.
    rewrite Hpos, Nat2Z.id, Hpre, c_string_prefix by exact Hnum.
    rewrite app_nil_r.
    eexists. destruct (_ || _); reflexivity.
  - destruct nows as [|now nows]; [discriminate Hnows|].
    simpl (default _ _) in Ht0.
    pose proof (Forall_inv Hdead) as Hnow. apply Forall_inv_tail in Hdead.
    cbn [forallb] in Hpay. apply andb_prop in Hpay as [Hc Hpay].
    cbn [length] in Hroom, Hnows.
    assert (Hto : timed_out p now = false).
    { unfold timed_out. destruct (Z.eqb_spec (threshold_string_pos p) 0) as [E|E].
      - rewrite E. reflexivity.
      - subst t0. rewrite Hnow. apply andb_false_r. }
    cbn [get_new_threshold_calls].
    rewrite (get_new_threshold_numeric now p io c (payload ++ term :: rest)
               Hto ltac:(lia) Hrx Hc).
    rewrite <- Ht0.
    destruct (IH (pre ++ [c]) nows
                (Protocol (<[Z.to_nat (threshold_string_pos p) := c]> (threshold_string p))
                   (threshold_string_pos p + 1) t0)
                (Serial (payload ++ term :: rest) (serial_tx io))
                (-1)%float t0) as [buf Hbuf].
    + cbn [threshold_string_pos]. rewrite length_app. simpl. lia.
    + cbn [threshold_string]. rewrite length_app. cbn [length].
      rewrite Nat.add_1_r, Hpos, Nat2Z.id.
      rewrite (take_S_r _ _ c) by (apply list_lookup_insert_eq; lia).
      rewrite take_insert_ge by lia. rewrite Hpre. reflexivity.
    + rewrite forallb_app, Hnum. cbn [forallb]. rewrite Hc. reflexivity.
    + exact Hpay.
    + cbn [threshold_string]. rewrite length_insert. exact Hlen.
    + rewrite length_app. cbn [length]. lia.
    + reflexivity.
    + lia.
    + cbn [threshold_string_pos timestamp].
      replace (threshold_string_pos p + 1 =? 0) with false
        by (symmetry; apply Z.eqb_neq; lia).
      reflexivity.
    + exact Hdead.
    + exists buf. rewrite Hbuf. cbn [serial_tx].
      rewrite <- app_assoc. reflexivity.
Qed.

End Line.

(** X8.  A whole line.  From the idle state, with a line in the receive
    buffer (up to 18 digits and dots, then CR or LF) and one call per byte,
    none of them after the deadline of 250 ms from the first call, the last
    call parses exactly the bytes of the line, whatever an earlier input
    left in the buffer: it returns the value and sends OK with it when the
    value is neither below 0.0 nor at or above 1.0, and returns -1.0 and
    sends E:OVERFLOW otherwise.  In both cases the position is back at 0
    and whatever followed the line in the receive buffer is dropped. *)
Theorem get_new_threshold_line (payload : bytes) (term : ascii) (rest : bytes)
    (nows : list Z) (p : protocol) (io : serial) :
  threshold_string_pos p = 0 ->
  length (threshold_string p) = 20%nat ->
  forallb is_numeric payload = true ->
  (length payload <= 18)%nat ->
  is_terminator term = true ->
  serial_rx io = payload ++ term :: rest ->
  length nows = S (length payload) ->
  Forall (fun now => (to_ulong (default 0 (head nows) + 250) <? now) = false) nows ->
  let '(threshold, p', io') :=
    get_new_threshold_calls atof print_double nows (-1)%float p io in
  let v := atof payload in
  let accepted := negb (PrimFloat.ltb v 0 || PrimFloat.leb 1 v) in
  threshold = (if accepted then v else (-1)%float)
  /\ serial_tx io'
     = serial_tx io
       ++ reply_bytes print_double (if accepted then Ok v else Error "OVERFLOW")
  /\ serial_rx io' = []
  /\ threshold_string_pos p' = 0.
Proof.
  intros Hpos Hlen Hpay Hroom Hterm Hrx Hnows Hdead.
  destruct (get_new_threshold_calls_line term rest Hterm payload [] nows p io
              (-1)%float (default 0 (head nows))) as [buf Hbuf];
    try assumption; try reflexivity.
  - rewrite Hpos. reflexivity.
  - rewrite Hbuf. cbv zeta. cbn [app].
    destruct (_ || _); cbn [negb serial_tx serial_rx threshold_string_pos];
      repeat split; reflexivity.
Qed.

End Protocol_properties.

Lemma get_new_threshold_buffer_full_witness :
  get_new_threshold atof_decimal print_fixed 100
    (Protocol (replicate 20 (ascii_of_nat 49)) 19 90)
    (Serial [LF; ascii_of_nat 50] [])
  = ((-1)%float,
     Protocol (replicate 20 (ascii_of_nat 49)) 0 90,
     Serial [] ([] ++ text "E:FLUSH" ++ crlf)).
Proof.
  apply (get_new_threshold_buffer_full atof_decimal print_fixed 100
           (Protocol (replicate 20 (ascii_of_nat 49)) 19 90)
           (Serial [LF; ascii_of_nat 50] []) LF [ascii_of_nat 50]);
    reflexivity.
Defined.

Lemma get_new_threshold_timeout_witness :
  get_new_threshold atof_decimal print_fixed 4294967200
    (Protocol (replicate 20 (ascii_of_nat 49)) 3 4294967100)
    (Serial [ascii_of_nat 50] [])
  = ((-1)%float,
     Protocol (replicate 20 (ascii_of_nat 49)) 0 4294967100,
     Serial [] ([] ++ text "E:TIMEOUT" ++ crlf)).
Proof.
  apply (get_new_threshold_timeout atof_decimal print_fixed 4294967200
           (Protocol (replicate 20 (ascii_of_nat 49)) 3 4294967100)
           (Serial [ascii_of_nat 50] [])); simpl; lia.
Defined.

Lemma get_new_threshold_line_witness :
  let '(threshold, p', io') :=
    get_new_threshold_calls atof_decimal print_fixed [10; 11; 12; 13; 14]
      (-1)%float (Protocol (replicate 20 NUL) 0 0)
      (Serial (text "0.75" ++ LF :: text "9") []) in
  let v := atof_decimal (text "0.75") in
  let accepted := negb (PrimFloat.ltb v 0 || PrimFloat.leb 1 v) in
  threshold = (if accepted then v else (-1)%float)
  /\ serial_tx io'
     = [] ++ reply_bytes print_fixed (if accepted then Ok v else Error "OVERFLOW")
  /\ serial_rx io' = []
  /\ threshold_string_pos p' = 0.
Proof.
  apply (get_new_threshold_line atof_decimal print_fixed (text "0.75") LF
           (text "9") [10; 11; 12; 13; 14] (Protocol (replicate 20 NUL) 0 0)
           (Serial (text "0.75" ++ LF :: text "9") []));
    try reflexivity.
  - simpl. lia.
  - repeat constructor.
Defined.

(** *** Rejections and the length of a line *)

Lemma c_string_length_le buf : forall n,
  buf !! n = Some NUL -> (length (c_string buf) <= n)%nat.
Proof.
  induction buf as [|c buf IH]; intros n H; [discriminate H|].
  cbn [c_string]. destruct (Ascii.eqb c NUL) eqn:E; [cbn; lia|].
  destruct n as [|n].
  - cbn in H. injection H as ->. discriminate E.
  - cbn in H. cbn [length]. specialize (IH n H). lia.
Qed.

Lemma not_own_extension {A : Type} (l s : list A) :
  l = l ++ s -> s = [].
Proof.
  intros H. apply (f_equal (@length A)) in H. rewrite length_app in H.
  destruct s; [reflexivity|cbn in H; lia].
Qed.

Section Protocol_rejections.

Variable atof : bytes -> double.
Variable print_double : double -> Z -> bytes.

Local Abbreviation Get := (get_new_threshold atof print_double).

(** C5.  The end of [loop] on a rejection.  A call of [get_new_threshold]
    ends in a rejection when the deadline of a partial input has passed
    (TIMEOUT), when a byte arrives with 19 bytes accumulated (FLUSH), when a
    terminator arrives and the text reads as a value outside [0.0, 1.0)
    (OVERFLOW), or when a byte arrives that is no terminator, digit or dot
    (NON-NUMERIC).  Then exactly the one error line of that rejection is
    sent, the position is back at 0, the receive buffer is empty, and the
    live threshold and the EEPROM are what they were.  In every other case
    no error line is sent: nothing, or one OK line. *)
Theorem rejection_recovers (b : board) (now : Z) (threshold : double)
    (ee : list Z) (p : protocol) (io : serial) :
  let '(threshold', ee', p', io') :=
    loop_threshold atof print_double b now threshold ee p io in
  match rejection atof now p io with
  | Some message =>
      In message ["TIMEOUT"; "OVERFLOW"; "NON-NUMERIC"; "FLUSH"]%string
      /\ serial_tx io' = serial_tx io ++ reply_bytes print_double (Error message)
      /\ serial_rx io' = []
      /\ threshold_string_pos p' = 0
      /\ threshold' = threshold
      /\ ee' = ee
  | None =>
      serial_tx io' = serial_tx io
      \/ exists v, serial_tx io' = serial_tx io ++ reply_bytes print_double (Ok v)
  end.
Proof.
  unfold loop_threshold, rejection, get_new_threshold, timed_out. cbv zeta.
  destruct (_ && _).
  { change (PrimFloat.ltb 0 (-1)) with false.
    cbn [flush_serial_input serial_println serial_tx serial_rx
         threshold_string_pos reply_bytes].
    rewrite drain_nil. cbn [In]. repeat split; auto. }
  destruct (serial_rx io) as [|c rx]; [left; reflexivity|].
  unfold sizeof_threshold_string. change (20 - 1) with 19.
  destruct (Z.ltb_spec (threshold_string_pos p) 19) as [Hlt|Hge].
  - replace (19 <=? threshold_string_pos p) with false
      by (symmetry; apply Z.leb_gt; exact Hlt).
    unfold is_terminator, is_numeric.
    destruct (Ascii.eqb c CR || Ascii.eqb c LF).
    + destruct (_ || _).
      * change (PrimFloat.ltb 0 (-1)) with false.
        cbn [flush_serial_input serial_println serial_tx serial_rx
             threshold_string_pos reply_bytes].
        rewrite drain_nil. cbn [In]. repeat split; auto.
      * destruct (PrimFloat.ltb 0 _);
          cbn [flush_serial_input serial_println serial_print serial_tx
               serial_rx reply_bytes];
          right; eexists; rewrite <- app_assoc; reflexivity.
    + destruct (is_digit c || is_dot c).
      * left. reflexivity.
      * change (PrimFloat.ltb 0 (-1)) with false.
        cbn [flush_serial_input serial_println serial_tx serial_rx
             threshold_string_pos reply_bytes].
        rewrite drain_nil. cbn [In]. repeat split; auto.
  - replace (19 <=? threshold_string_pos p) with true
      by (symmetry; apply Z.leb_le; exact Hge).
    change (PrimFloat.ltb 0 (-1)) with false.
    cbn [flush_serial_input serial_println serial_tx serial_rx
         threshold_string_pos reply_bytes].
    rewrite drain_nil. cbn [In]. repeat split; auto 6.
Qed.

(** C10.  The accumulation buffer has 20 bytes, but a line is parsed only
    while the position is below 19.  With 19 bytes accumulated the next
    byte, whatever it is, a terminator included, gets E:FLUSH and the
    partial input is dropped.  A call that answers OK found a terminator at
    a position of at most 18 and parsed a text of at most 18 characters. *)
Theorem accepted_line_has_18_characters (now : Z) (p : protocol) (io : serial)
    (c : ascii) (rest : bytes) :
  length (threshold_string p) = Z.to_nat sizeof_threshold_string ->
  0 <= threshold_string_pos p <= 19 ->
  timed_out p now = false ->
  serial_rx io = c :: rest ->
  sizeof_threshold_string = 20
  /\ (threshold_string_pos p = 19 ->
      Get now p io
      = ((-1)%float,
         Protocol (threshold_string p) 0 (timestamp p),
         Serial [] (serial_tx io ++ text "E:FLUSH" ++ crlf)))
  /\ (forall s, serial_tx (snd (Get now p io)) = serial_tx io ++ text "OK:" ++ s ->
      let parsed :=
        c_string (<[Z.to_nat (threshold_string_pos p) := NUL]>
                    (threshold_string p)) in
      threshold_string_pos p <= 18
      /\ is_terminator c = true
      /\ fst (fst (Get now p io)) = atof parsed
      /\ (length parsed <= 18)%nat).
Proof.
  intros Hlen Hpos Hto Hrx. split; [reflexivity|].
  unfold sizeof_threshold_string in Hlen.
  unfold get_new_threshold. cbv zeta.
  unfold timed_out in Hto. rewrite Hto, Hrx.
  unfold sizeof_threshold_string. change (20 - 1) with 19.
  split.
  - intros E. rewrite E. change (19 <? 19) with false. change (19 =? 0) with false.
    cbv iota. unfold flush_serial_input, serial_println.
    cbn [serial_rx serial_tx]. rewrite drain_nil. reflexivity.
  - intros s. cbv zeta.
    destruct (Z.ltb_spec (threshold_string_pos p) 19) as [Hlt|Hge].
    + unfold is_terminator.
      destruct (Ascii.eqb c CR || Ascii.eqb c LF).
      * destruct (_ || _) eqn:Eov.
        { cbn [snd fst flush_serial_input serial_println serial_tx serial_rx].
          intros H. apply app_inv_head in H. discriminate H. }
        cbn [snd fst]. intros _.
        split; [lia|]. split; [reflexivity|]. split; [reflexivity|].
        pose proof (c_string_length_le
          (<[Z.to_nat (threshold_string_pos p) := NUL]> (threshold_string p))
          (Z.to_nat (threshold_string_pos p))
          ltac:(apply list_lookup_insert_eq; lia)) as Hc.
        lia.
      * destruct (is_digit c || is_dot c).
        { cbn [snd serial_tx]. intros H. apply not_own_extension in H.
          discriminate H. }
        cbn [snd fst flush_serial_input serial_println serial_tx serial_rx].
        intros H. apply app_inv_head in H. discriminate H.
    + cbn [snd fst flush_serial_input serial_println serial_tx serial_rx].
      intros H. apply app_inv_head in H. discriminate H.
Qed.

End Protocol_rejections.

Lemma accepted_line_has_18_characters_witness :
  sizeof_threshold_string = 20
  /\ (19 = 19 ->
      get_new_threshold atof_decimal print_fixed 100
        (Protocol (replicate 20 "1"%char) 19 0) (Serial [LF; "7"%char] [])
      = ((-1)%float,
         Protocol (replicate 20 "1"%char) 0 0,
         Serial [] ([] ++ text "E:FLUSH" ++ crlf)))
  /\ (forall s,
        serial_tx (snd (get_new_threshold atof_decimal print_fixed 100
                          (Protocol (replicate 20 "1"%char) 19 0)
                          (Serial [LF; "7"%char] [])))
        = [] ++ text "OK:" ++ s ->
        let parsed :=
          c_string (<[Z.to_nat 19 := NUL]> (replicate 20 "1"%char)) in
        19 <= 18
        /\ is_terminator LF = true
        /\ fst (fst (get_new_threshold atof_decimal print_fixed 100
                       (Protocol (replicate 20 "1"%char) 19 0)
                       (Serial [LF; "7"%char] [])))
           = atof_decimal parsed
        /\ (length parsed <= 18)%nat).
Proof.
  apply (accepted_line_has_18_characters atof_decimal print_fixed 100
           (Protocol (replicate 20 "1"%char) 19 0) (Serial [LF; "7"%char] [])
           LF ["7"%char]).
  - reflexivity.
  - simpl. lia.
  - reflexivity.
  - reflexivity.
Defined.

(** ** The persistent store *)

Lemma bits_of_four_bytes bits :
  bits_of_bytes [byte_of bits 0; byte_of bits 1; byte_of bits 2; byte_of bits 3]
  = bits mod 4294967296.
Proof.
  unfold bits_of_bytes, byte_of.
  change (256 ^ 0) with 1. change (256 ^ 1) with 256.
  change (256 ^ 2) with 65536. change (256 ^ 3) with 16777216.
  zmod.
Qed.

(** The binary32 value of a bit pattern depends on its low 32 bits only. *)
Lemma bits_double_mega_low bits :
  bits_double ARDUINO_AVR_MEGA2560 (bits mod 4294967296)
  = bits_double ARDUINO_AVR_MEGA2560 bits.
Proof.
  unfold bits_double. cbv zeta.
  change (mantissa_bits ARDUINO_AVR_MEGA2560) with 23.
  change (exponent_bits ARDUINO_AVR_MEGA2560) with 8.
  change (2 ^ 23) with 8388608. change (2 ^ 8) with 256.
  change (23 + 8) with 31.
  replace ((bits mod 4294967296) mod 8388608) with (bits mod 8388608) by zmod.
  replace ((bits mod 4294967296 / 8388608) mod 256)
    with ((bits / 8388608) mod 256) by zmod.
  change 4294967296 with (2 ^ 32).
  rewrite (Z.mod_pow2_bits_low bits 32 31) by lia.
  reflexivity.
Qed.

(** X13.  On the Mega, reading the threshold back after saving it gives the
    value of the four bytes that were written: the saved value as a binary32
    number, or the default 0.5 when that is 0.0.  Saving writes the EEPROM
    cells 0 to 3 and no other. *)
Theorem save_then_read_amplitude_threshold (threshold : double) (ee : list Z) :
  (4 <= length ee)%nat ->
  let ee' := save_amplitude_threshold_to_eeprom ARDUINO_AVR_MEGA2560 threshold ee in
  let stored :=
    bits_double ARDUINO_AVR_MEGA2560 (double_bits ARDUINO_AVR_MEGA2560 threshold) in
  read_amplitude_threshold_from_eeprom ARDUINO_AVR_MEGA2560 ee'
  = (if PrimFloat.eqb stored 0 then DEFAULT_AMPLITUDE_THRESHOLD else stored)
  /\ length ee' = length ee
  /\ forall i, 4 <= i -> rd ee' i = rd ee i.
Proof.
  intros Hlen. cbv zeta.
  unfold save_amplitude_threshold_to_eeprom, read_amplitude_threshold_from_eeprom.
  set (bits := double_bits ARDUINO_AVR_MEGA2560 threshold). clearbody bits.
  unfold for_loop. change (Z.to_nat (sizeof_double ARDUINO_AVR_MEGA2560 - 0)) with 4%nat.
  unfold AMPLITUDE_THRESHOLD_EEPROM_ADDRESS.
  cbn [for_count]. cbv zeta.
  repeat match goal with
  | |- context [Z.add ?a ?b] =>
      let v := eval cbv in (Z.add a b) in
      match v with Z0 => idtac | Zpos _ => idtac end;
      progress change (Z.add a b) with v
  end.
  set (ee' := wr (wr (wr (wr ee 0 (byte_of bits 0)) 1 (byte_of bits 1)) 2
                    (byte_of bits 2)) 3 (byte_of bits 3)).
  assert (H0 : rd ee' 0 = byte_of bits 0).
  { unfold ee'. rewrite !rd_wr_ne by lia. apply rd_wr_eq. lia. }
  assert (H1 : rd ee' 1 = byte_of bits 1).
  { unfold ee'. rewrite !rd_wr_ne by lia. apply rd_wr_eq.
    rewrite length_wr. lia. }
  assert (H2 : rd ee' 2 = byte_of bits 2).
  { unfold ee'. rewrite !rd_wr_ne by lia. apply rd_wr_eq.
    rewrite !length_wr. lia. }
  assert (H3 : rd ee' 3 = byte_of bits 3).
  { unfold ee'. apply rd_wr_eq. rewrite !length_wr. lia. }
  split; [|split].
  - rewrite H0, H1, H2, H3.
    change (wr (wr (wr (wr (replicate (Z.to_nat (sizeof_double ARDUINO_AVR_MEGA2560)) 0)
                          0 (byte_of bits 0)) 1 (byte_of bits 1)) 2 (byte_of bits 2))
              3 (byte_of bits 3))
      with [byte_of bits 0; byte_of bits 1; byte_of bits 2; byte_of bits 3].
    rewrite bits_of_four_bytes, bits_double_mega_low. reflexivity.
  - unfold ee'. rewrite !length_wr. reflexivity.
  - intros i Hi. unfold ee'. rewrite !rd_wr_ne by lia. reflexivity.
Qed.

Lemma save_then_read_amplitude_threshold_witness :
  let ee' := save_amplitude_threshold_to_eeprom ARDUINO_AVR_MEGA2560 0.75%float
               [255; 255; 255; 255; 7] in
  let stored :=
    bits_double ARDUINO_AVR_MEGA2560 (double_bits ARDUINO_AVR_MEGA2560 0.75%float) in
  read_amplitude_threshold_from_eeprom ARDUINO_AVR_MEGA2560 ee'
  = (if PrimFloat.eqb stored 0 then DEFAULT_AMPLITUDE_THRESHOLD else stored)
  /\ length ee' = length [255; 255; 255; 255; 7]
  /\ forall i, 4 <= i -> rd ee' i = rd [255; 255; 255; 255; 7] i.
Proof.
  apply (save_then_read_amplitude_threshold 0.75%float [255; 255; 255; 255; 7]).
  simpl. lia.
Defined.

(** ** The whole sketch *)

Section Sketch_properties.

Variable twiddle_real twiddle_imag : list Z.
Variable print_short : Z -> bytes.
Variable print_double : double -> Z -> bytes.
Variable atof : bytes -> double.
Variable cos : double -> double.

Local Abbreviation Run := (run twiddle_real twiddle_imag print_short print_double atof cos).
Local Abbreviation Step := (step twiddle_real twiddle_imag print_short print_double atof cos).
Local Abbreviation Loop_ := (loop twiddle_real twiddle_imag print_short print_double atof).
Local Abbreviation Analysis := (loop_analysis twiddle_real twiddle_imag print_short print_double).
Local Abbreviation Get := (get_new_threshold atof print_double).

Lemma get_new_threshold_invariant now p io :
  protocol_invariant p -> protocol_invariant (snd (fst (Get now p io))).
Proof.
  intros [Hlen Hpos]. unfold get_new_threshold, protocol_invariant. cbv zeta.
  destruct (_ && _); [cbn; lia|].
  destruct (serial_rx io) as [|c rx]; [cbn; lia|].
  destruct (Z.ltb_spec (threshold_string_pos p) (sizeof_threshold_string - 1))
    as [Hlt|Hge]; [|cbn; lia].
  unfold sizeof_threshold_string in Hlt.
  destruct (_ || _).
  { destruct (_ || _); cbn [fst snd threshold_string threshold_string_pos];
      rewrite length_insert; lia. }
  destruct (_ || _); cbn [fst snd threshold_string threshold_string_pos];
    rewrite ?length_insert; lia.
Qed.

Lemma loop_analysis_threshold_input b m :
  threshold_input (Analysis b m) = threshold_input m
  /\ amplitude_threshold (Analysis b m) = amplitude_threshold m
  /\ eeprom (Analysis b m) = eeprom m
  /\ serial_rx (port (Analysis b m)) = serial_rx (port m).
Proof.
  unfold loop_analysis. cbv zeta.
  destruct (geodata_buffer_full (sampling m)); [|auto].
  destruct (geodata_samples_real (sampling m)); [|auto].
  destruct (default _ _) as [real1 imag1].
  destruct (bit_reverse_complex _ _ _) as [real2 imag2].
  destruct (report _ _ _ _ _ _ _ _) as [out created]. auto.
Qed.

Lemma loop_threshold_input b now m :
  threshold_input (Loop_ b now m)
  = snd (fst (Get now (threshold_input m) (port (Analysis b m)))).
Proof.
  unfold loop, loop_threshold.
  destruct (loop_analysis_threshold_input b m) as (-> & _).
  destruct (Get now _ _) as [[v p] io].
  destruct (PrimFloat.ltb 0 v); reflexivity.
Qed.

(** X9.  Whatever arrives on the serial line and whenever [loop] runs, the
    accumulation buffer keeps its 20 bytes and the position stays between 0
    and 19.  A byte is only stored while the position is below 19, so no
    store ever falls outside the buffer, the terminating NUL included. *)
Theorem threshold_string_stays_in_bounds (b : board) (eeprom : list Z)
    (events : list event) :
  let p := threshold_input (Run b eeprom events) in
  length (threshold_string p) = 20%nat /\ 0 <= threshold_string_pos p <= 19.
Proof.
  cbv zeta. change (protocol_invariant (threshold_input (Run b eeprom events))).
  induction events as [|e events IH] using rev_ind.
  - split; [reflexivity|cbn; lia].
  - unfold run in *. rewrite fold_left_app. cbn [fold_left].
    destruct e as [raw now|now|c].
    + cbn [step]. destruct (sampling_interrupt _ _ _ _ _ _). exact IH.
    + cbn [step]. rewrite loop_threshold_input.
      apply get_new_threshold_invariant, IH.
    + exact IH.
Qed.


Lemma loop_threshold_cases b now threshold ee p io :
  let '(threshold', ee', p', io') :=
    loop_threshold atof print_double b now threshold ee p io in
  (threshold' = threshold /\ ee' = ee)
  \/ (PrimFloat.ltb 0 threshold' = true
      /\ PrimFloat.leb 1 threshold' = false
      /\ ee' = save_amplitude_threshold_to_eeprom b threshold' ee
      /\ serial_tx io' = serial_tx io ++ reply_bytes print_double (Ok threshold')).
Proof.
  unfold loop_threshold, get_new_threshold. cbv zeta.
  destruct (_ && _); [left; auto|].
  destruct (serial_rx io) as [|c rx]; [left; auto|].
  destruct (_ <? _); [|left; auto].
  destruct (_ || _).
  2:{ destruct (_ || _); left; auto. }
  match goal with |- context [atof ?s] => generalize (atof s) end. intros v.
  destruct (PrimFloat.ltb v 0) eqn:E0; [left; auto|].
  destruct (PrimFloat.leb 1 v) eqn:E1; [left; auto|].
  cbn [orb]. destruct (PrimFloat.ltb 0 v) eqn:Ev; [|left; auto].
  right. unfold flush_serial_input, serial_println, serial_print, reply_bytes.
  cbn [serial_tx serial_rx]. rewrite <- app_assoc. auto.
Qed.

(** X10.  The end of [loop] changes the live threshold and the EEPROM
    together or not at all.  They change only when [get_new_threshold] has
    answered OK with a value above 0.0: that value, which then lies in the
    unit interval, becomes the threshold and its bytes are stored.  In every
    other case both stay as they were. *)
Theorem loop_threshold_update (b : board) (now : Z) (threshold : double)
    (ee : list Z) (p : protocol) (io : serial) :
  let '(threshold', ee', p', io') :=
    loop_threshold atof print_double b now threshold ee p io in
  (threshold' = threshold /\ ee' = ee)
  \/ (PrimFloat.ltb 0 threshold' = true
      /\ in_unit threshold' = true
      /\ ee' = save_amplitude_threshold_to_eeprom b threshold' ee
      /\ serial_tx io' = serial_tx io ++ reply_bytes print_double (Ok threshold')).
Proof.
  pose proof (loop_threshold_cases b now threshold ee p io) as H.
  destruct (loop_threshold _ _ _ _ _ _ _ _) as [[[threshold' ee'] p'] io'].
  destruct H as [H|(H0 & H1 & He & Htx)]; [left; exact H|right].
  split; [exact H0|]. split; [|split; assumption].
  apply positive_below_one_in_unit; assumption.
Qed.

Lemma loop_amplitude_threshold b now m :
  amplitude_threshold (Loop_ b now m) = amplitude_threshold m
  \/ in_unit (amplitude_threshold (Loop_ b now m)) = true.
Proof.
  unfold loop.
  destruct (loop_analysis_threshold_input b m) as (_ & Ht & _).
  pose proof (loop_threshold_cases b now (amplitude_threshold (Analysis b m))
                (eeprom (Analysis b m)) (threshold_input (Analysis b m))
                (port (Analysis b m))) as H.
  destruct (loop_threshold _ _ _ _ _ _ _ _) as [[[threshold' ee'] p'] io'].
  cbn [amplitude_threshold].
  destruct H as [[H _]|(H0 & H1 & _)].
  - left. rewrite H. exact Ht.
  - right. apply positive_below_one_in_unit; assumption.
Qed.

(** X11.  When the threshold that [setup] takes from the EEPROM (or the
    default) lies in the unit interval, the live threshold lies in the unit
    interval after every sequence of interrupts, passes through [loop] and
    received bytes. *)
Theorem amplitude_threshold_stays_in_unit (b : board) (eeprom : list Z)
    (events : list event) :
  in_unit (read_amplitude_threshold_from_eeprom b eeprom) = true ->
  in_unit (amplitude_threshold (Run b eeprom events)) = true.
Proof.
  intros H0. induction events as [|e events IH] using rev_ind.
  - exact H0.
  - unfold run in *. rewrite fold_left_app. cbn [fold_left].
    destruct e as [raw now|now|c].
    + cbn [step]. destruct (sampling_interrupt _ _ _ _ _ _). exact IH.
    + cbn [step].
      destruct (loop_amplitude_threshold b now
                  (fold_left (Step b) events (setup b (power_on eeprom))))
        as [H|H]; [rewrite H; exact IH|exact H].
    + exact IH.
Qed.

(** X12.  A line that reads as 0.0 (a lone terminator, with the C
    library's [atof], or the digit 0) is acknowledged with an OK line like
    any accepted value, but the end of [loop] takes only values above 0.0:
    the live threshold and the EEPROM stay as they were. *)
Theorem loop_threshold_zero_not_applied (b : board) (now : Z)
    (threshold : double) (ee : list Z) (p : protocol) (io : serial)
    (term : ascii) (rest : bytes) :
  timed_out p now = false ->
  threshold_string_pos p < 19 ->
  serial_rx io = term :: rest ->
  is_terminator term = true ->
  let buf := <[Z.to_nat (threshold_string_pos p) := NUL]> (threshold_string p) in
  let v := atof (c_string buf) in
  PrimFloat.eqb v 0 = true ->
  loop_threshold atof print_double b now threshold ee p io
  = (threshold, ee,
     Protocol buf 0 (if threshold_string_pos p =? 0 then now else timestamp p),
     Serial [] (serial_tx io ++ reply_bytes print_double (Ok v))).
Proof.
  intros Hto Hpos Hrx Hterm buf v Hv.
  destruct (zero_comparisons v Hv) as (H1 & H2 & H3).
  unfold loop_threshold.
  rewrite (get_new_threshold_terminator atof print_double now p io term rest
             Hto Hpos Hrx Hterm).
  cbv zeta. fold buf. fold v. rewrite H1, H3. cbn [orb]. rewrite H2.
  reflexivity.
Qed.

Lemma read_due ee :
  read_amplitude_threshold_from_eeprom ARDUINO_SAM_DUE ee
  = DEFAULT_AMPLITUDE_THRESHOLD.
Proof. reflexivity. Qed.

Lemma step_eeprom_due m e : eeprom (Step ARDUINO_SAM_DUE m e) = eeprom m.
Proof.
  destruct e as [raw now|now|c]; cbn [step].
  - destruct (sampling_interrupt _ _ _ _ _ _). reflexivity.
  - unfold loop.
    destruct (loop_analysis_threshold_input ARDUINO_SAM_DUE m) as (_ & _ & He & _).
    unfold loop_threshold.
    destruct (Get now _ _) as [[v p] io].
    destruct (PrimFloat.ltb 0 v); cbn [eeprom save_amplitude_threshold_to_eeprom];
      exact He.
  - reflexivity.
Qed.

(** X15.  On the Due nothing is persistent: whatever happens, the store is
    never written, and a restart brings the live threshold back to the
    default 0.5, whatever threshold had been set over the serial line. *)
Theorem due_forgets_threshold (ee : list Z) (events : list event) :
  let m := Run ARDUINO_SAM_DUE ee events in
  eeprom m = ee
  /\ amplitude_threshold (setup ARDUINO_SAM_DUE (power_on (eeprom m)))
     = DEFAULT_AMPLITUDE_THRESHOLD.
Proof.
  cbv zeta. split; [|apply read_due].
  induction events as [|e events IH] using rev_ind; [reflexivity|].
  unfold run in *. rewrite fold_left_app. cbn [fold_left].
  rewrite step_eeprom_due. exact IH.
Qed.

Lemma report_nan b freq_real freq_imag len flag :
  report b print_short print_double freq_real freq_imag len nan flag = ([], flag).
Proof.
  unfold report. cbv zeta. unfold for_loop.
  rewrite for_count_fold, report_bins_fold. cbv zeta.
  replace (List.filter _ _) with (@nil Z); [reflexivity|].
  symmetry.
  match goal with |- List.filter _ ?l = _ => generalize l end.
  intros l. induction l as [|x l IH]; [reflexivity|].
  cbn [List.filter]. rewrite nan_leb. exact IH.
Qed.

Lemma loop_silent b now m : silent m -> silent (Loop_ b now m).
Proof.
  intros (Ht & Hrx & Htx & Hpos).
  assert (Ha : silent (Analysis b m)).
  { unfold loop_analysis. cbv zeta.
    destruct (geodata_buffer_full (sampling m)); [|repeat split; assumption].
    destruct (geodata_samples_real (sampling m));
      [|repeat split; assumption].
    destruct (default _ _) as [real1 imag1].
    destruct (bit_reverse_complex _ _ _) as [real2 imag2].
    rewrite Ht, report_nan.
    unfold silent. cbn [amplitude_threshold port serial_rx serial_tx threshold_input].
    rewrite app_nil_r. repeat split; assumption. }
  destruct Ha as (Ht' & Hrx' & Htx' & Hpos').
  unfold loop, loop_threshold, get_new_threshold. cbv zeta.
  rewrite Hpos', Hrx'. cbn [Z.ltb Z.compare andb].
  change (PrimFloat.ltb 0 (-1)) with false. cbv iota.
  unfold silent. cbn [amplitude_threshold port serial_rx serial_tx threshold_input].
  repeat split; assumption.
Qed.

(** X16.  When the bytes in EEPROM read as a NaN, as the four 0xFF bytes of
    an erased EEPROM do on the Mega, [setup] takes the NaN as the threshold:
    it is not 0.0, so the default is not used.  No amplitude is at or above
    a NaN, so as long as no byte arrives on the serial line the sketch never
    sends a report, whatever is sampled. *)
Theorem nan_threshold_is_silent (b : board) (ee : list Z) (events : list event) :
  read_amplitude_threshold_from_eeprom b ee = nan ->
  no_receive events = true ->
  let m := Run b ee events in
  amplitude_threshold m = nan /\ serial_tx (port m) = [].
Proof.
  intros Hnan Hev. cbv zeta.
  assert (H : silent (Run b ee events)).
  { induction events as [|e events IH] using rev_ind.
    - repeat split; try reflexivity. exact Hnan.
    - unfold no_receive in Hev. rewrite forallb_app in Hev.
      apply andb_prop in Hev as [Hev He].
      unfold run in *. rewrite fold_left_app. cbn [fold_left].
      specialize (IH Hev). destruct e as [raw now|now|c].
      + cbn [step]. destruct (sampling_interrupt _ _ _ _ _ _). exact IH.
      + cbn [step]. apply loop_silent, IH.
      + discriminate He. }
  destruct H as (Ht & _ & Htx & _). split; assumption.
Qed.



End Sketch_properties.

Lemma amplitude_threshold_stays_in_unit_witness :
  in_unit (amplitude_threshold
             (run [] [] print_integer print_fixed atof_decimal cos_series
                ARDUINO_AVR_MEGA2560 [0; 0; 64; 63]
                [Receive (ascii_of_nat 48); Loop 5; Receive LF; Loop 6])) = true.
Proof.
  apply (amplitude_threshold_stays_in_unit [] [] print_integer print_fixed
           atof_decimal cos_series ARDUINO_AVR_MEGA2560 [0; 0; 64; 63]).
  vm_compute. reflexivity.
Defined.

Lemma loop_threshold_zero_not_applied_witness :
  loop_threshold atof_decimal print_fixed ARDUINO_AVR_MEGA2560 20 0.75%float
    [0; 0; 64; 63] (Protocol (text "0" ++ replicate 19 NUL) 1 10)
    (Serial [LF] [])
  = (0.75%float, [0; 0; 64; 63],
     Protocol (text "0" ++ replicate 19 NUL) 0 10,
     Serial [] ([] ++ reply_bytes print_fixed (Ok 0%float))).
Proof.
  apply (loop_threshold_zero_not_applied print_fixed atof_decimal
           ARDUINO_AVR_MEGA2560 20 0.75%float [0; 0; 64; 63]
           (Protocol (text "0" ++ replicate 19 NUL) 1 10) (Serial [LF] [])
           LF []); reflexivity.
Defined.

Lemma nan_threshold_is_silent_witness :
  let m := run [] [] print_integer print_fixed atof_decimal cos_series
             ARDUINO_AVR_MEGA2560 [255; 255; 255; 255]
             [Tick 600 1; Loop 2; Tick 400 3; Loop 4] in
  amplitude_threshold m = nan /\ serial_tx (port m) = [].
Proof.
  apply (nan_threshold_is_silent [] [] print_integer print_fixed atof_decimal
           cos_series ARDUINO_AVR_MEGA2560 [255; 255; 255; 255]
           [Tick 600 1; Loop 2; Tick 400 3; Loop 4]); reflexivity.
Defined.



(** C1.  The line [0] on the Mega, with 0.75 stored in the EEPROM: the
    value 0.0 is answered with OK:0.00, but [loop] takes only values above
    0.0, and the live threshold and the EEPROM stay at 0.75.  The line
    [0.5] is answered with OK:0.50 and becomes the threshold, live and
    stored. *)
Theorem zero_threshold_acknowledged_not_applied :
  let m0 := run [] [] print_integer print_fixed atof_decimal cos_series
              ARDUINO_AVR_MEGA2560 [0; 0; 64; 63]
              [Receive "0"%char; Receive LF; Loop 5; Loop 6] in
  let m5 := run [] [] print_integer print_fixed atof_decimal cos_series
              ARDUINO_AVR_MEGA2560 [0; 0; 64; 63]
              [Receive "0"%char; Receive "."%char; Receive "5"%char; Receive LF;
               Loop 5; Loop 6; Loop 7; Loop 8] in
  (serial_tx (port m0) = text "OK:0.00" ++ crlf
   /\ amplitude_threshold m0 = 0.75%float
   /\ eeprom m0 = [0; 0; 64; 63])
  /\ (serial_tx (port m5) = text "OK:0.50" ++ crlf
      /\ amplitude_threshold m5 = 0.5%float
      /\ eeprom m5 = [0; 0; 0; 63]).
Proof. vm_compute. repeat split; reflexivity. Qed.

(** C7.  The band of the Mega.  [150 * 512] is 76800, which in the 16-bit
    [int] of the Mega is 11264, so the upper bin is 22, not 150.  A frame
    whose only component is a full-scale bin 100 gives no report on the
    Mega; on the Due the bin is reported. *)
Theorem report_mega_stops_at_bin_22 :
  let freq_real := wr (replicate 512 0) 100 32767 in
  let freq_imag := replicate 512 0 in
  to_int ARDUINO_AVR_MEGA2560
    (HIGHEST_FREQUENCY_REPORTED * NUMBER_OF_GEODATA_SAMPLES) = 11264
  /\ Z.quot (to_int ARDUINO_AVR_MEGA2560
              (HIGHEST_FREQUENCY_REPORTED * NUMBER_OF_GEODATA_SAMPLES))
            SAMPLE_RATE = 22
  /\ report ARDUINO_AVR_MEGA2560 print_integer print_fixed freq_real freq_imag
       257 0.5%float false = ([], false)
  /\ report ARDUINO_SAM_DUE print_integer print_fixed freq_real freq_imag
       257 0.5%float false = (text "100,1.0000" ++ crlf, true).
Proof. vm_compute. repeat split; reflexivity. Qed.
